(** * GutHib: the Smart HTTP bridge and the push webhook dispatcher

    A shallow embedding of [server.js]: the packet-line helpers, the request
    router, the three git protocol handlers and [triggerWebhooks], followed
    by the properties of the specification stated over them.

    JavaScript strings are sequences of UTF-16 code units; a string written
    to a socket or fed to a hash is first encoded as UTF-8.  Both views are
    kept apart here: [jsstring] is the list of code units, [utf8] the bytes
    Node produces for it. *)

From Stdlib Require Import String Ascii.
From Stdlib Require Import List NArith ZArith Lia Bool Permutation Sorted.
Import ListNotations.

Local Open Scope N_scope.
Local Open Scope list_scope.

(** ** JavaScript strings *)

Definition jsstring := list N.

(** A string literal of the source (all of them are ASCII). *)
Definition js (s : string) : jsstring :=
  map N_of_ascii (list_ascii_of_string s).

(** [a === b] on strings. *)
Fixpoint str_eqb (a b : jsstring) : bool :=
  match a, b with
  | [], [] => true
  | x :: a', y :: b' => (x =? y) && str_eqb a' b'
  | _, _ => false
  end.

(** [s.startsWith(p)] *)
Fixpoint startsWith (s p : jsstring) {struct p} : bool :=
  match p, s with
  | [], _ => true
  | y :: p', x :: s' => (x =? y) && startsWith s' p'
  | _ :: _, [] => false
  end.

(** [s.includes(p)]: [p] occurs in [s] at some position. *)
Fixpoint includes (s p : jsstring) : bool :=
  startsWith s p ||
  match s with
  | [] => false
  | _ :: s' => includes s' p
  end.

(** [s.endsWith(p)] *)
Definition endsWith (s p : jsstring) : bool :=
  (length p <=? length s)%nat &&
  str_eqb (skipn (length s - length p) s) p.

(** [s.replace(pat, rep)] with a string pattern: only the first occurrence
    is replaced.  ([rep] has no [$] in the source: it is the empty string.) *)
Fixpoint replace (s pat rep : jsstring) : jsstring :=
  if startsWith s pat then rep ++ skipn (length pat) s
  else match s with
       | [] => []
       | c :: s' => c :: replace s' pat rep
       end.

(** [s.padStart(len, fill)] for a one-character [fill]. *)
Definition padStart (s : jsstring) (len : nat) (fill : N) : jsstring :=
  repeat fill (len - length s) ++ s.

(** The digit characters of [Number.prototype.toString(radix)]:
    [0-9] then lowercase [a-z]. *)
Definition digit_char (d : N) : N :=
  if d <? 10 then 48 + d else 87 + d.

Fixpoint digits_from (fuel : nat) (radix n : N) (acc : jsstring) : jsstring :=
  match fuel with
  | O => acc
  | S fuel' =>
      if n <? radix then digit_char n :: acc
      else digits_from fuel' radix (n / radix) (digit_char (n mod radix) :: acc)
  end.

(** [n.toString(radix)] for a non-negative integer [n]; a number below
    [2^k] has at most [k] digits in any radix, which bounds the recursion. *)
Definition toString (radix n : N) : jsstring :=
  digits_from (S (N.to_nat (N.log2 n))) radix n [].

(** ** UTF-8, as produced by [res.write(string)], [req.write(string)],
       [hmac.update(string)] and measured by [Buffer.byteLength(string)] *)

Definition is_high_surrogate (c : N) : bool := (0xD800 <=? c) && (c <? 0xDC00).
Definition is_low_surrogate (c : N) : bool := (0xDC00 <=? c) && (c <? 0xE000).

Definition utf8_replacement : list N := [0xEF; 0xBF; 0xBD].

Definition utf8_3 (c : N) : list N :=
  [0xE0 + c / 4096; 0x80 + (c / 64) mod 64; 0x80 + c mod 64].

Definition utf8_4 (hi lo : N) : list N :=
  let cp := 0x10000 + (hi - 0xD800) * 1024 + (lo - 0xDC00) in
  [0xF0 + cp / 262144; 0x80 + (cp / 4096) mod 64;
   0x80 + (cp / 64) mod 64; 0x80 + cp mod 64].

Fixpoint utf8 (s : jsstring) : list N :=
  match s with
  | [] => []
  | c :: s' =>
      if c <? 0x80 then c :: utf8 s'
      else if c <? 0x800 then (0xC0 + c / 64) :: (0x80 + c mod 64) :: utf8 s'
      else if is_high_surrogate c then
        match s' with
        | d :: s'' =>
            if is_low_surrogate d then utf8_4 c d ++ utf8 s''
            else utf8_replacement ++ utf8 s'
        | [] => utf8_replacement
        end
      else if is_low_surrogate c then utf8_replacement ++ utf8 s'
      else utf8_3 c ++ utf8 s'
  end.

(** [Buffer.byteLength(s)] *)
Definition byteLength (s : jsstring) : nat := length (utf8 s).

(** A string all of whose code units are ASCII. *)
Definition is_ascii (s : jsstring) : bool := forallb (fun c => c <? 0x80) s.

(** ** Packet lines *)

(** [packetLine(line)]: [(line.length + 4).toString(16).padStart(4, '0') + line] *)
Definition packetLine (line : jsstring) : jsstring :=
  let len := padStart (toString 16 (N.of_nat (length line) + 4)) 4 48 in
  len ++ line.

(** [flushPkt()] *)
Definition flushPkt : jsstring := js "0000".

(** The value of a hexadecimal digit, of either case. *)
Definition hex_value (c : N) : option N :=
  if (48 <=? c) && (c <=? 57) then Some (c - 48)
  else if (97 <=? c) && (c <=? 102) then Some (c - 87)
  else if (65 <=? c) && (c <=? 70) then Some (c - 55)
  else None.

Definition pkt_max : N := 65520.

(** Modelled from the spec: the source has no packet-line decoder; section
    4.1 asks of one that it reads the four hexadecimal digits as the length
    of the whole line and rejects lengths below 4 or above 65520.  The
    payload is the [length - 4] units that follow; the rest of the stream
    is returned with it. *)
Definition pkt_decode (s : jsstring) : option (jsstring * jsstring) :=
  match s with
  | a :: b :: c :: d :: rest =>
      match hex_value a, hex_value b, hex_value c, hex_value d with
      | Some va, Some vb, Some vc, Some vd =>
          let n := ((va * 16 + vb) * 16 + vc) * 16 + vd in
          if (n <? 4) || (pkt_max <? n) then None
          else
            let k := N.to_nat (n - 4) in
            if (k <=? length rest)%nat then Some (firstn k rest, skipn k rest)
            else None
      | _, _, _, _ => None
      end
  | _ => None
  end.

Definition nl : N := 10.

(** ** The platform

    What [server.js] takes from Node and is not code of the repository: the
    WHATWG URL parser, [path.join], the HMAC-SHA256 primitive of
    [node:crypto], the calendar arithmetic of [Date.prototype.toISOString]
    and the check [http.request] makes of its options.
    The development is parametric in them. *)

Record URL := {
  protocol : jsstring;
  hostname : jsstring;
  port : jsstring;
  pathname : jsstring;
  search : jsstring;
  searchParams : list (jsstring * jsstring)
}.

(** The [options] of [proto.request(options, callback)]. *)
Record Options := {
  opt_method : jsstring;
  opt_hostname : jsstring;
  opt_port : jsstring;
  opt_path : jsstring;
  opt_headers : list (jsstring * jsstring)
}.

Class Node := {
  (** [new URL(input)] and [new URL(input, base)]; [None] when the
      constructor throws a [TypeError] *)
  URL_new : jsstring -> option jsstring -> option URL;
  path_join : jsstring -> jsstring -> jsstring;
  (** key bytes, message bytes, digest bytes *)
  hmac_sha256 : list N -> list N -> list N;
  toISOString : N -> jsstring;
  (** whether [http.request(options, callback)], or [https.request] when
      the flag is set, throws instead of returning a request: Node refuses
      for one a [path] that holds a space ([ERR_UNESCAPED_CHARACTERS]) *)
  request_throws : bool -> Options -> bool
}.

(** [params.get(name)]: the first value stored under [name], or [null]. *)
Fixpoint searchParams_get (q : list (jsstring * jsstring)) (name : jsstring)
  : option jsstring :=
  match q with
  | [] => None
  | (k, v) :: q' => if str_eqb k name then Some v else searchParams_get q' name
  end.

(** [digest('hex')]: two lowercase hexadecimal digits per byte. *)
Definition hex_of_bytes (bs : list N) : jsstring :=
  flat_map (fun b => [digit_char (b / 16); digit_char (b mod 16)]) bs.

(** [createHmac('sha256', key).update(msg).digest('hex')] on strings: both
    strings are taken as their UTF-8 bytes. *)
Definition createHmac_hex `{Node} (key msg : jsstring) : jsstring :=
  hex_of_bytes (hmac_sha256 (utf8 key) (utf8 msg)).

(** ** JSON.stringify of a flat object with string values *)

Definition JSON_escape_unit (c : N) : jsstring :=
  [92; 117] ++ padStart (toString 16 c) 4 48.

Fixpoint JSON_quote_units (s : jsstring) : jsstring :=
  match s with
  | [] => []
  | c :: s' =>
      if c =? 34 then [92; 34] ++ JSON_quote_units s'
      else if c =? 92 then [92; 92] ++ JSON_quote_units s'
      else if c =? 8 then [92; 98] ++ JSON_quote_units s'
      else if c =? 12 then [92; 102] ++ JSON_quote_units s'
      else if c =? 10 then [92; 110] ++ JSON_quote_units s'
      else if c =? 13 then [92; 114] ++ JSON_quote_units s'
      else if c =? 9 then [92; 116] ++ JSON_quote_units s'
      else if c <? 32 then JSON_escape_unit c ++ JSON_quote_units s'
      else if is_high_surrogate c then
        match s' with
        | d :: s'' =>
            if is_low_surrogate d then c :: d :: JSON_quote_units s''
            else JSON_escape_unit c ++ JSON_quote_units s'
        | [] => JSON_escape_unit c
        end
      else if is_low_surrogate c then JSON_escape_unit c ++ JSON_quote_units s'
      else c :: JSON_quote_units s'
  end.

Definition JSON_quote (s : jsstring) : jsstring :=
  [34] ++ JSON_quote_units s ++ [34].

(** An object whose property names are not array indices keeps its
    properties in insertion order; assigning to an existing name keeps the
    place of the property. *)
Definition JSObject := list (jsstring * jsstring).

Fixpoint obj_set (o : JSObject) (k v : jsstring) : JSObject :=
  match o with
  | [] => [(k, v)]
  | (k', v') :: o' =>
      if str_eqb k' k then (k', v) :: o' else (k', v') :: obj_set o' k v
  end.

Fixpoint obj_get (o : JSObject) (k : jsstring) : option jsstring :=
  match o with
  | [] => None
  | (k', v) :: o' => if str_eqb k' k then Some v else obj_get o' k
  end.

(** [{ ...o, ...p }] *)
Definition obj_spread (o p : JSObject) : JSObject :=
  fold_left (fun acc kv => obj_set acc (fst kv) (snd kv)) p o.

Fixpoint join (sep : jsstring) (parts : list jsstring) : jsstring :=
  match parts with
  | [] => []
  | [x] => x
  | x :: rest => x ++ sep ++ join sep rest
  end.

Definition JSON_stringify (o : JSObject) : jsstring :=
  js "{" ++
  join (js ",") (map (fun kv => JSON_quote (fst kv) ++ js ":" ++ JSON_quote (snd kv)) o)
  ++ js "}".

(** ** The webhooks table *)

Record Webhook := {
  wh_id : N;
  wh_repo_name : jsstring;
  wh_url : jsstring;
  wh_secret : jsstring;
  wh_events : jsstring;
  wh_created_at : jsstring
}.

(** [a <= b] in the order of [ORDER BY] on a TEXT column. *)
Fixpoint str_leb (a b : jsstring) : bool :=
  match a, b with
  | [], _ => true
  | _ :: _, [] => false
  | x :: a', y :: b' => (x <? y) || ((x =? y) && str_leb a' b')
  end.

Fixpoint insert_desc (w : Webhook) (l : list Webhook) : list Webhook :=
  match l with
  | [] => [w]
  | v :: l' =>
      if str_leb (wh_created_at v) (wh_created_at w) then w :: l
      else v :: insert_desc w l'
  end.

Definition order_by_created_at_desc (l : list Webhook) : list Webhook :=
  fold_right insert_desc [] l.

(** [listWebhooks(repoName)]:
    [SELECT * FROM webhooks WHERE repo_name = ? ORDER BY created_at DESC] *)
Definition listWebhooks (table : list Webhook) (repoName : jsstring)
  : list Webhook :=
  order_by_created_at_desc
    (filter (fun w => str_eqb (wh_repo_name w) repoName) table).

(** ** The environment of a request *)

Record GitRun := {
  stdout : list N;
  (** the [code] of the ['close'] event: [null] when killed by a signal *)
  exit_code : option Z
}.

Inductive Page :=
| CommitPage (repo hash : jsstring)
| TreePage (repo ref : jsstring)
| BlobPage (repo ref file : jsstring)
| ComparePage (repo base head : jsstring)
| RepoPage (repo : jsstring).

Record Env := {
  REPOS_DIR : jsstring;
  fs_existsSync : jsstring -> bool;
  webhooks : list Webhook;
  (** the successive readings of the system clock, in milliseconds *)
  clock : nat -> N;
  (** what the spawned [git] does with its arguments and standard input *)
  git : list jsstring -> list N -> GitRun;
  (** the browsing pages, rendered by the UI ([null] when it declines) *)
  render : Page -> option jsstring
}.

(** ** The webhook dispatcher *)

Record ClientRequest := {
  rq_https : bool;
  rq_method : jsstring;
  rq_hostname : jsstring;
  rq_port : jsstring;
  rq_path : jsstring;
  rq_headers : list (jsstring * jsstring);
  (** the bytes of [req.write(body)] *)
  rq_body : list N
}.

Inductive LogEntry :=
| LogResponded (url : jsstring) (statusCode : N)
| LogFailed (url message : jsstring)
| LogError (url : jsstring).

(** One pass of the loop body that got past the event filter: the payload
    it serialised and the request it issued, if nothing in the [try] block
    threw. *)
Record Attempt := {
  att_webhook : Webhook;
  att_payload : JSObject;
  att_body : jsstring;
  att_request : option ClientRequest
}.

Record DState := {
  reads : nat;
  log : list LogEntry;
  attempts : list Attempt
}.

Definition idle : DState := {| reads := 0; log := []; attempts := [] |}.

Definition M (A : Type) : Type := DState -> A * DState.

Definition ret {A} (a : A) : M A := fun s => (a, s).

Definition bind {A B} (m : M A) (k : A -> M B) : M B :=
  fun s => let (a, s') := m s in k a s'.

Notation "x <- m ;; k" := (bind m (fun x => k))
  (at level 61, m at next level, right associativity).
Notation "m ;;; k" := (bind m (fun _ => k))
  (at level 61, right associativity).

(** [Date.now()] and [new Date()] *)
Definition now (e : Env) : M N :=
  fun s => (clock e (reads s),
            {| reads := S (reads s); log := log s; attempts := attempts s |}).

Definition console (l : LogEntry) : M unit :=
  fun s => (tt, {| reads := reads s; log := log s ++ [l]; attempts := attempts s |}).

Definition attempt (a : Attempt) : M unit :=
  fun s => (tt, {| reads := reads s; log := log s; attempts := attempts s ++ [a] |}).

Fixpoint for_of {A} (l : list A) (body : A -> M unit) : M unit :=
  match l with
  | [] => ret tt
  | x :: l' => body x ;;; for_of l' body
  end.

Definition signature_header := js "X-GutHib-Signature".
Definition delivery_header := js "X-GutHib-Delivery".
Definition event_header := js "X-GutHib-Event".

(** [url.port || (url.protocol === 'https:' ? 443 : 80)] *)
Definition port_of (url : URL) : jsstring :=
  match port url with
  | [] => if str_eqb (protocol url) (js "https:") then js "443" else js "80"
  | _ :: _ => port url
  end.

(** The body of the [for] loop of [triggerWebhooks].  The [catch] clause
    is reached from [new URL] and from [proto.request]; it logs the same
    line for both. *)
Definition deliver `{Node} (e : Env) (repoName event : jsstring)
  (payload : JSObject) (webhook : Webhook) : M unit :=
  if negb (includes (wh_events webhook) event) then ret tt
  else
    date <- now e ;;
    let object :=
      obj_spread [(js "event", event); (js "repository", repoName);
                  (js "timestamp", toISOString date)] payload in
    let body := JSON_stringify object in
    match URL_new (wh_url webhook) None with
    | None =>
        console (LogError (wh_url webhook)) ;;;
        attempt {| att_webhook := webhook; att_payload := object;
                   att_body := body; att_request := None |}
    | Some url =>
        let https := str_eqb (protocol url) (js "https:") in
        stamp <- now e ;;
        let headers :=
          [(js "Content-Type", js "application/json");
           (js "Content-Length", toString 10 (N.of_nat (byteLength body)));
           (event_header, event);
           (delivery_header, toString 10 stamp)] in
        let headers :=
          match wh_secret webhook with
          | [] => headers
          | _ :: _ =>
              headers ++
              [(signature_header,
                js "sha256=" ++ createHmac_hex (wh_secret webhook) body)]
          end in
        let options :=
          {| opt_method := js "POST";
             opt_hostname := hostname url;
             opt_port := port_of url;
             opt_path := pathname url ++ search url;
             opt_headers := headers |} in
        if request_throws https options then
          console (LogError (wh_url webhook)) ;;;
          attempt {| att_webhook := webhook; att_payload := object;
                     att_body := body; att_request := None |}
        else
          attempt
            {| att_webhook := webhook; att_payload := object; att_body := body;
               att_request :=
                 Some {| rq_https := https;
                         rq_method := opt_method options;
                         rq_hostname := opt_hostname options;
                         rq_port := opt_port options;
                         rq_path := opt_path options;
                         rq_headers := opt_headers options;
                         rq_body := utf8 body |} |}
    end.

(** [triggerWebhooks(repoName, event, payload)] *)
Definition triggerWebhooks `{Node} (e : Env) (repoName event : jsstring)
  (payload : JSObject) : M unit :=
  for_of (listWebhooks (webhooks e) repoName) (deliver e repoName event payload).

(** The requests put on the wire by a run of the dispatcher. *)
Definition outbox (s : DState) : list ClientRequest :=
  flat_map (fun a => match att_request a with Some r => [r] | None => [] end)
           (attempts s).

(** ** The git protocol handlers *)

Record Response := {
  status : N;
  headers : list (jsstring * jsstring);
  (** the bytes written to the response, in order *)
  body : list N
}.

Record Proc := { argv : list jsstring; stdin : list N }.

Record Handled := {
  response : Response;
  procs : list Proc;
  dispatch : DState
}.

(** [getRepoPath(repoName)] *)
Definition getRepoPath `{Node} (e : Env) (repoName : jsstring) : jsstring :=
  path_join (REPOS_DIR e) repoName.

Definition repository_not_found : Handled :=
  {| response := {| status := 404;
                    headers := [(js "Content-Type", js "text/plain")];
                    body := utf8 (js "Repository not found") |};
     procs := [];
     dispatch := idle |}.

Definition no_cache : jsstring * jsstring := (js "Cache-Control", js "no-cache").

(** [handleInfoRefs(req, res, repoName, service)] *)
Definition handleInfoRefs `{Node} (e : Env) (repoName service : jsstring)
  : Handled :=
  let repoPath := getRepoPath e repoName in
  if negb (fs_existsSync e repoPath) then repository_not_found
  else
    let serviceName := replace service (js "git-") [] in
    let args := [replace service (js "git-") []; js "--stateless-rpc";
                 js "--advertise-refs"; repoPath] in
    {| response :=
         {| status := 200;
            headers :=
              [(js "Content-Type",
                js "application/x-git-" ++ serviceName ++ js "-advertisement");
               no_cache];
            body := utf8 (packetLine (js "# service=" ++ service ++ [nl]))
                    ++ utf8 flushPkt
                    ++ stdout (git e args []) |};
       procs := [{| argv := args; stdin := [] |}];
       dispatch := idle |}.

(** [handleUploadPack(req, res, repoName)] *)
Definition handleUploadPack `{Node} (e : Env) (repoName : jsstring)
  (reqBody : list N) : Handled :=
  let repoPath := getRepoPath e repoName in
  if negb (fs_existsSync e repoPath) then repository_not_found
  else
    let args := [js "upload-pack"; js "--stateless-rpc"; repoPath] in
    {| response :=
         {| status := 200;
            headers :=
              [(js "Content-Type", js "application/x-git-upload-pack-result");
               no_cache];
            body := stdout (git e args reqBody) |};
       procs := [{| argv := args; stdin := reqBody |}];
       dispatch := idle |}.

(** The ['close'] listener of [handleReceivePack]. *)
Definition on_close `{Node} (e : Env) (repoName : jsstring) (code : option Z)
  : M unit :=
  match code with
  | Some 0%Z =>
      triggerWebhooks e repoName (js "push") [(js "ref", js "refs/heads/main")]
  | _ => ret tt
  end.

(** [handleReceivePack(req, res, repoName)] *)
Definition handleReceivePack `{Node} (e : Env) (repoName : jsstring)
  (reqBody : list N) : Handled :=
  let repoPath := getRepoPath e repoName in
  if negb (fs_existsSync e repoPath) then repository_not_found
  else
    let args := [js "receive-pack"; js "--stateless-rpc"; repoPath] in
    let run := git e args reqBody in
    {| response :=
         {| status := 200;
            headers :=
              [(js "Content-Type", js "application/x-git-receive-pack-result");
               no_cache];
            body := stdout run |};
       procs := [{| argv := args; stdin := reqBody |}];
       dispatch := snd (on_close e repoName (exit_code run) idle) |}.

(** ** The request router *)

Definition slash : N := 47.

(** The part of [s] before its first [/], and the rest (empty, or starting
    with that [/]). *)
Fixpoint segment (s : jsstring) : jsstring * jsstring :=
  match s with
  | [] => ([], [])
  | c :: s' =>
      if c =? slash then ([], s)
      else let (seg, rest) := segment s' in (c :: seg, rest)
  end.

(** What [.] does not match: the line terminators. *)
Definition line_terminator (c : N) : bool :=
  (c =? 10) || (c =? 13) || (c =? 0x2028) || (c =? 0x2029).

Definition dot_star (s : jsstring) : bool :=
  forallb (fun c => negb (line_terminator c)) s.

(** [[^/]+\.git] in front of a [/] or of the end of the input: the whole
    first segment, which must end in [.git] after at least one character. *)
Definition git_segment (seg : jsstring) : bool :=
  endsWith seg (js ".git") && (4 <? length seg)%nat.

(** The [pathname.match] of [parsePath]: a slash, group 1 [[^/]+\.git], as
    optional group 2 a slash and any run of characters matched by [.], then
    the end of the input.  The result holds the two groups, the second one
    [undefined] when the path stops after the name. *)
Definition match_repo (pathname : jsstring)
  : option (jsstring * option jsstring) :=
  match pathname with
  | c :: s =>
      if c =? slash then
        let (seg, rest) := segment s in
        if git_segment seg then
          match rest with
          | [] => Some (seg, None)
          | _ :: tail =>
              if dot_star tail then Some (seg, Some rest) else None
          end
        else None
      else None
  | [] => None
  end.

Record Parsed := {
  repo : option jsstring;
  path : jsstring;
  query : list (jsstring * jsstring)
}.

(** [parsePath(url)]; [None] when [new URL] throws. *)
Definition parsePath `{Node} (url : jsstring) : option Parsed :=
  match URL_new url (Some (js "http://localhost")) with
  | None => None
  | Some urlObj =>
      match match_repo (pathname urlObj) with
      | Some (m1, m2) =>
          Some {| repo := Some m1;
                  path := match m2 with Some p => p | None => js "/" end;
                  query := searchParams urlObj |}
      | None =>
          Some {| repo := None;
                  path := pathname urlObj;
                  query := searchParams urlObj |}
      end
  end.

Definition is_digit (c : N) : bool := (48 <=? c) && (c <=? 57).

Definition is_hex_i (c : N) : bool :=
  is_digit c || ((97 <=? c) && (c <=? 102)) || ((65 <=? c) && (c <=? 70)).

Definition plus (p : N -> bool) (s : jsstring) : bool :=
  match s with
  | [] => false
  | _ :: _ => forallb p s
  end.

(** [s] without the prefix [p], when it starts with it. *)
Definition strip (p s : jsstring) : option jsstring :=
  if startsWith s p then Some (skipn (length p) s) else None.

(** [req.url.match(/^\/api\/repos\/([^/]+\.git)\/webhooks(\/(\d+))?$/)]:
    groups 1 and 3. *)
Definition match_webhook (url : jsstring)
  : option (jsstring * option jsstring) :=
  match strip (js "/api/repos/") url with
  | None => None
  | Some s =>
      let (seg, rest) := segment s in
      if git_segment seg then
        match strip (js "/webhooks") rest with
        | Some [] => Some (seg, None)
        | Some (c :: ds) =>
            if (c =? slash) && plus is_digit ds then Some (seg, Some ds)
            else None
        | None => None
        end
      else None
  end.

(** [urlPath.match(/^\/commit\/([a-f0-9]+)$/i)] *)
Definition match_commit (urlPath : jsstring) : option jsstring :=
  match strip (js "/commit/") urlPath with
  | Some h => if plus is_hex_i h then Some h else None
  | None => None
  end.

(** [urlPath.match(/^\/tree\/([a-f0-9]+|[^/]+)$/i)] *)
Definition match_tree (urlPath : jsstring) : option jsstring :=
  match strip (js "/tree/") urlPath with
  | Some t => if plus (fun c => negb (c =? slash)) t then Some t else None
  | None => None
  end.

(** [urlPath.match(/^\/blob\/([a-f0-9]+|[^/]+)\/(.+)$/i)] *)
Definition match_blob (urlPath : jsstring) : option (jsstring * jsstring) :=
  match strip (js "/blob/") urlPath with
  | Some s =>
      match segment s with
      | (_ :: _ as ref, _ :: (_ :: _ as file)) =>
          if dot_star file then Some (ref, file) else None
      | _ => None
      end
  | None => None
  end.

Fixpoint hex_run (s : jsstring) : jsstring * jsstring :=
  match s with
  | [] => ([], [])
  | c :: s' =>
      if is_hex_i c then let (h, rest) := hex_run s' in (c :: h, rest)
      else ([], s)
  end.

(** [urlPath.match(/^\/compare\/([a-f0-9]+)\.\.\.([a-f0-9]+)$/i)] *)
Definition match_compare (urlPath : jsstring) : option (jsstring * jsstring) :=
  match strip (js "/compare/") urlPath with
  | Some s =>
      match hex_run s with
      | (_ :: _ as base, rest) =>
          match strip (js "...") rest with
          | Some head => if plus is_hex_i head then Some (base, head) else None
          | None => None
          end
      | _ => None
      end
  | None => None
  end.

Record Request := {
  method : jsstring;
  url : jsstring;
  (** the bytes of the request body *)
  reqBody : list N
}.

(** The routes served by the repository registry, the webhook storage and
    the home page; their handlers are not part of the bridge. *)
Inductive ApiCall :=
| HomePage
| ListRepositories
| CreateRepository
| ListWebhooks (repoName : jsstring)
| CreateWebhook (repoName : jsstring)
| DeleteWebhook (webhookId : jsstring)
| DeleteRepository (repoName : jsstring).

Inductive Outcome :=
| Threw
| Api (call : ApiCall)
| Served (h : Handled)
| Rendered (page : Page) (html : jsstring)
| NotFound.

(** The routes tried before the git protocol ones, on the raw [req.url]. *)
Definition api_route (req : Request) : option ApiCall :=
  let GET := str_eqb (method req) (js "GET") in
  let POST := str_eqb (method req) (js "POST") in
  let DELETE := str_eqb (method req) (js "DELETE") in
  if str_eqb (url req) (js "/") && GET then Some HomePage
  else if str_eqb (url req) (js "/api/repos") && GET then Some ListRepositories
  else if str_eqb (url req) (js "/api/repos") && POST then Some CreateRepository
  else
    let webhookMatch :=
      match match_webhook (url req) with
      | Some (repoName, None) =>
          if GET then Some (ListWebhooks repoName)
          else if POST then Some (CreateWebhook repoName)
          else None
      | Some (repoName, Some webhookId) =>
          if DELETE then Some (DeleteWebhook webhookId) else None
      | None => None
      end in
    match webhookMatch with
    | Some call => Some call
    | None =>
        if startsWith (url req) (js "/api/repos/") && DELETE
        then Some (DeleteRepository (replace (url req) (js "/api/repos/") []))
        else None
    end.

(** A browsing route answers when the UI renders a page for it. *)
Definition page_route (e : Env) (matched : option Page) (GET : bool)
  : option Outcome :=
  match matched with
  | Some page =>
      if GET then
        match render e page with
        | Some (_ :: _ as html) => Some (Rendered page html)
        | _ => None
        end
      else None
  | None => None
  end.

(** The first route that answers. *)
Fixpoint first_route (routes : list (option Outcome)) : Outcome :=
  match routes with
  | [] => NotFound
  | Some o :: _ => o
  | None :: routes' => first_route routes'
  end.

(** The git protocol routes and the browsing routes, under [if (repo)]. *)
Definition git_routes `{Node} (e : Env) (req : Request) (repo : jsstring)
  (urlPath : jsstring) (query : list (jsstring * jsstring))
  : list (option Outcome) :=
  let GET := str_eqb (method req) (js "GET") in
  let POST := str_eqb (method req) (js "POST") in
  [ (if str_eqb urlPath (js "/info/refs") then
       match searchParams_get query (js "service") with
       | Some service =>
           if str_eqb service (js "git-upload-pack")
              || str_eqb service (js "git-receive-pack")
           then Some (Served (handleInfoRefs e repo service))
           else None
       | None => None
       end
     else None);
    (if str_eqb urlPath (js "/git-upload-pack") && POST
     then Some (Served (handleUploadPack e repo (reqBody req))) else None);
    (if str_eqb urlPath (js "/git-receive-pack") && POST
     then Some (Served (handleReceivePack e repo (reqBody req))) else None);
    page_route e (option_map (CommitPage repo) (match_commit urlPath)) GET;
    page_route e (option_map (TreePage repo) (match_tree urlPath)) GET;
    page_route e (option_map (fun m => BlobPage repo (fst m) (snd m))
                             (match_blob urlPath)) GET;
    page_route e (option_map (fun m => ComparePage repo (fst m) (snd m))
                             (match_compare urlPath)) GET;
    page_route e (if str_eqb urlPath (js "/") then Some (RepoPage repo) else None)
               GET ].

(** The request handler of [http.createServer]. *)
Definition server `{Node} (e : Env) (req : Request) : Outcome :=
  match parsePath (url req) with
  | None => Threw
  | Some parsed =>
      match api_route req with
      | Some call => Api call
      | None =>
          match repo parsed with
          | Some repo =>
              first_route (git_routes e req repo (path parsed) (query parsed))
          | None => NotFound
          end
      end
  end.

(** The status line of the answer, where the bridge decides it. *)
Definition status_of (o : Outcome) : option N :=
  match o with
  | Served h => Some (status (response h))
  | Rendered _ _ => Some 200
  | NotFound => Some 404
  | Threw | Api _ => None
  end.

(** The git subprocesses spawned by the protocol handlers. *)
Definition procs_of (o : Outcome) : list Proc :=
  match o with
  | Served h => procs h
  | _ => []
  end.

(** ** Deliveries in flight

    [triggerWebhooks] does not wait for the requests it issues: the answer
    of a subscriber, or the failure of a connection, arrives later and runs
    the response callback or the ['error'] listener of that request, while
    the loop may still have subscriptions to go through. *)

Inductive NetEvent :=
| Responded (statusCode : N)
| Errored (message : jsstring).

(** The response callback and the ['error'] listener of a request. *)
Definition on_event (webhook : Webhook) (ev : NetEvent) : M unit :=
  match ev with
  | Responded statusCode => console (LogResponded (wh_url webhook) statusCode)
  | Errored message => console (LogFailed (wh_url webhook) message)
  end.

Record Sys := {
  (** the subscriptions the loop has not reached yet *)
  pending : list Webhook;
  dstate : DState;
  (** the response of the push, already sent *)
  client : Response
}.

Section Interleaving.
Context `{Node}.
Variables (e : Env) (repoName event : jsstring) (payload : JSObject).

Inductive step : Sys -> Sys -> Prop :=
| step_loop : forall w ws d c,
    step {| pending := w :: ws; dstate := d; client := c |}
         {| pending := ws;
            dstate := snd (deliver e repoName event payload w d);
            client := c |}
| step_net : forall i a r ev ws d c,
    nth_error (attempts d) i = Some a ->
    att_request a = Some r ->
    step {| pending := ws; dstate := d; client := c |}
         {| pending := ws;
            dstate := snd (on_event (att_webhook a) ev d);
            client := c |}.

Inductive steps : Sys -> Sys -> Prop :=
| steps_refl : forall s, steps s s
| steps_step : forall s1 s2 s3, steps s1 s2 -> step s2 s3 -> steps s1 s3.

(** The dispatcher as started by [triggerWebhooks]. *)
Definition started (c : Response) : Sys :=
  {| pending := listWebhooks (webhooks e) repoName;
     dstate := idle;
     client := c |}.
End Interleaving.

(** ** Vocabulary of the statements *)

(** The value of a run of hexadecimal digits. *)
Definition hex_number (s : jsstring) : option N :=
  fold_left (fun acc c =>
               match acc, hex_value c with
               | Some a, Some v => Some (a * 16 + v)
               | _, _ => None
               end) s (Some 0).

Definition lower_hex (c : N) : bool :=
  is_digit c || ((97 <=? c) && (c <=? 102)).

(** The four digits of a number below [16^4]. *)
Definition four_digits (n : N) : jsstring :=
  [digit_char (n / 16 / 16 / 16); digit_char ((n / 16 / 16) mod 16);
   digit_char ((n / 16) mod 16); digit_char (n mod 16)].

(** The subscriptions of [repoName] that pass the filter of the loop. *)
Definition subscribed (repoName event : jsstring) (w : Webhook) : bool :=
  str_eqb (wh_repo_name w) repoName && includes (wh_events w) event.

(** The options a request was made with. *)
Definition options_of (r : ClientRequest) : Options :=
  {| opt_method := rq_method r; opt_hostname := rq_hostname r;
     opt_port := rq_port r; opt_path := rq_path r;
     opt_headers := rq_headers r |}.

(** The [try] block of a pass for the subscription [w] ends in its [catch]
    clause: [new URL] throws on the URL stored, or the URL parses and
    [proto.request] throws on the options made from it. *)
Definition thrown `{Node} (event : jsstring) (w : Webhook) : Prop :=
  URL_new (wh_url w) None = None \/
  exists u o,
    URL_new (wh_url w) None = Some u /\
    request_throws (str_eqb (protocol u) (js "https:")) o = true /\
    opt_method o = js "POST" /\
    opt_hostname o = hostname u /\
    opt_port o = port_of u /\
    opt_path o = pathname u ++ search u /\
    obj_get (opt_headers o) event_header = Some event.

(** What the loop body leaves behind for a subscription that passes the
    filter: no request when the [try] block threw, and otherwise a POST to
    the host, port and path of the URL stored. *)
Definition delivered `{Node} (repoName event : jsstring) (payload : JSObject)
  (a : Attempt) : Prop :=
  includes (wh_events (att_webhook a)) event = true /\
  (exists date,
      att_payload a =
        obj_spread [(js "event", event); (js "repository", repoName);
                    (js "timestamp", toISOString date)] payload) /\
  att_body a = JSON_stringify (att_payload a) /\
  match att_request a with
  | None => thrown event (att_webhook a)
  | Some r =>
      (exists u,
          URL_new (wh_url (att_webhook a)) None = Some u /\
          rq_https r = str_eqb (protocol u) (js "https:") /\
          rq_hostname r = hostname u /\
          rq_port r = port_of u /\
          rq_path r = pathname u ++ search u) /\
      request_throws (rq_https r) (options_of r) = false /\
      rq_method r = js "POST" /\
      rq_body r = utf8 (att_body a) /\
      obj_get (rq_headers r) (js "Content-Type") = Some (js "application/json") /\
      obj_get (rq_headers r) event_header = Some event /\
      (exists stamp,
          obj_get (rq_headers r) delivery_header = Some (toString 10 stamp)) /\
      obj_get (rq_headers r) signature_header =
        match wh_secret (att_webhook a) with
        | [] => None
        | _ :: _ =>
            Some (js "sha256=" ++
                  hex_of_bytes (hmac_sha256 (utf8 (wh_secret (att_webhook a)))
                                            (rq_body r)))
        end
  end.

(** ** A platform for the examples

    A URL parser for the plain inputs of the examples: a request target
    [/path?k=v&k=v], or [http://host:port/path?query] and its [https]
    form, without escapes, dot segments, fragments or credentials, where
    the WHATWG parser only cuts the input. *)

Fixpoint cut (c : N) (s : jsstring) : jsstring * option jsstring :=
  match s with
  | [] => ([], None)
  | x :: s' =>
      if x =? c then ([], Some s')
      else let (a, b) := cut c s' in (x :: a, b)
  end.

Fixpoint split (fuel : nat) (c : N) (s : jsstring) : list jsstring :=
  match fuel with
  | O => [s]
  | S fuel' =>
      match cut c s with
      | (a, None) => [a]
      | (a, Some b) => a :: split fuel' c b
      end
  end.

Definition plain_params (q : jsstring) : list (jsstring * jsstring) :=
  match q with
  | [] => []
  | _ :: _ =>
      map (fun kv => let (k, v) := cut 61 kv in
                     (k, match v with Some v => v | None => [] end))
          (split (length q) 38 q)
  end.

Definition plain_path_query (protocol hostname port s : jsstring) : URL :=
  let (p, q) := cut 63 s in
  let q := match q with Some q => q | None => [] end in
  {| protocol := protocol; hostname := hostname; port := port;
     pathname := match p with [] => js "/" | _ :: _ => p end;
     search := match q with [] => [] | _ :: _ => js "?" ++ q end;
     searchParams := plain_params q |}.

Definition plain_absolute (scheme : jsstring) (s : jsstring) : option URL :=
  let (authority, rest) := segment s in
  match authority with
  | [] => None
  | _ :: _ =>
      let (host, port) := cut 58 authority in
      Some (plain_path_query (scheme ++ js ":") host
              (match port with Some p => p | None => [] end) rest)
  end.

Definition plain_URL (input : jsstring) (base : option jsstring) : option URL :=
  match strip (js "http://") input, strip (js "https://") input with
  | Some s, _ => plain_absolute (js "http") s
  | None, Some s => plain_absolute (js "https") s
  | None, None =>
      match base with
      | Some _ =>
          if startsWith input (js "/") && negb (startsWith input (js "//"))
          then Some (plain_path_query (js "http:") (js "localhost") [] input)
          else None
      | None => None
      end
  end.

(** [path.join] of a directory [./repos] or [repos] with a single name that
    is not a dot segment. *)
Definition plain_join (dir name : jsstring) : jsstring :=
  match strip (js "./") dir with
  | Some d => d ++ js "/" ++ name
  | None => dir ++ js "/" ++ name
  end.

(** A stand-in for the keyed hash, of the right length. *)
Definition toy_mac (key msg : list N) : list N :=
  firstn 32 (map (fun b => (b + N.of_nat (length key)) mod 256) (msg ++ repeat 0 32)).

(** What [http.request] refuses in the options of the dispatcher: a path
    with a character outside U+0021..U+00FF, a header value with a
    character that is neither a tab nor in U+0020..U+007E or
    U+0080..U+00FF. *)
Definition unescaped (c : N) : bool := (c <? 33) || (255 <? c).

Definition bad_header_char (c : N) : bool :=
  negb ((c =? 9) || ((32 <=? c) && (c <=? 126)) || ((128 <=? c) && (c <=? 255))).

Definition node_refuses (https : bool) (o : Options) : bool :=
  existsb unescaped (opt_path o) ||
  existsb (fun kv => existsb bad_header_char (snd kv)) (opt_headers o).

#[local] Instance plain_node : Node := {|
  URL_new := plain_URL;
  path_join := plain_join;
  hmac_sha256 := toy_mac;
  toISOString := fun _ => js "2026-01-01T00:00:00.000Z";
  request_throws := node_refuses
|}.

(** The same platform with a parser that also takes the URL [x:a b], whose
    scheme is not special: its path is kept as written, space included. *)
Definition opaque_node : Node := {|
  URL_new := fun input base =>
    if str_eqb input (js "x:a b")
    then Some {| protocol := js "x:"; hostname := []; port := [];
                 pathname := js "a b"; search := []; searchParams := [] |}
    else plain_URL input base;
  path_join := plain_join;
  hmac_sha256 := toy_mac;
  toISOString := fun _ => js "2026-01-01T00:00:00.000Z";
  request_throws := node_refuses
|}.

(** A repository [test-repo.git] and one whose name has dots, a git that
    answers a flush packet and exits with [code], and a clock. *)
Definition demo_env (table : list Webhook) (code : option Z) (clock : nat -> N)
  : Env := {|
  REPOS_DIR := js "./repos";
  fs_existsSync := fun p => str_eqb p (js "repos/test-repo.git")
                            || str_eqb p (js "repos/a..b.git");
  webhooks := table;
  clock := clock;
  git := fun _ _ => {| stdout := utf8 (js "0000"); exit_code := code |};
  render := fun _ => None
|}.

(** A clock that advances by one millisecond at each reading, and one that
    is read several times within the same millisecond. *)
Definition ticking (k : nat) : N := N.of_nat k + 1700000000000.
Definition same_millisecond (k : nat) : N := 1700000000000.

Definition hook (id : N) (url secret events created : string) : Webhook := {|
  wh_id := id;
  wh_repo_name := js "test-repo.git";
  wh_url := js url;
  wh_secret := js secret;
  wh_events := js events;
  wh_created_at := js created
|}.

Definition GET (target : string) : Request :=
  {| method := js "GET"; url := js target; reqBody := [] |}.

Definition demo_hooks : list Webhook :=
  [hook 1 "http://c.example/" "" "release" "2026-01-01 10:00:00";
   hook 2 "https://b.example:8443/in?x=1" "" "push" "2026-01-02 10:00:00";
   hook 3 "http://a.example/hook" "s" "push" "2026-01-03 10:00:00"].

(** A push that git accepts, on a repository with three subscriptions, and
    a server without subscriptions. *)
Definition pushed : Env := demo_env demo_hooks (Some 0%Z) ticking.
Definition quiet : Env := demo_env [] (Some 0%Z) same_millisecond.

(** ** Numbers written in a radix *)

(** The value of a digit among [0-9a-z]. *)
Definition digit_value (c : N) : option N :=
  if is_digit c then Some (c - 48)
  else if (97 <=? c) && (c <=? 122) then Some (c - 87)
  else None.

(** The number written by a run of digits of [radix]; the empty run
    writes 0. *)
Definition number (radix : N) (s : jsstring) : option N :=
  fold_left (fun acc c =>
               match acc, digit_value c with
               | Some a, Some v => if v <? radix then Some (a * radix + v) else None
               | _, _ => None
               end) s (Some 0).

(** [new URL(webhook.url)] does not throw. *)
Definition parses `{Node} (w : Webhook) : bool :=
  match URL_new (wh_url w) None with
  | Some _ => true
  | None => false
  end.

(** The attempts that put a request on the wire. *)
Definition sent (a : Attempt) : bool :=
  match att_request a with
  | Some _ => true
  | None => false
  end.

(** The header of a request, as the subscriber reads it. *)
Definition header (name : jsstring) (r : ClientRequest) : option jsstring :=
  obj_get (rq_headers r) name.

(** Rows in the order of [ORDER BY created_at DESC]: no row is older than
    the one that follows it. *)
Definition not_older (v w : Webhook) : Prop :=
  str_leb (wh_created_at w) (wh_created_at v) = true.


(** The run of the dispatcher a request sets off. *)
Definition dispatch_of (o : Outcome) : DState :=
  match o with
  | Served h => dispatch h
  | _ => idle
  end.

Definition POST (target : string) (content : list N) : Request :=
  {| method := js "POST"; url := js target; reqBody := content |}.

(** A name the route pattern accepts: at least one character, then [.git]. *)
Definition git_name (name : jsstring) : Prop :=
  exists stem, stem <> [] /\ name = stem ++ js ".git".

(** ** Escaping text for the pages *)

(** [s.replace(/c/g, rep)] for a pattern that is the literal character [c]
    and a replacement without [$]. *)
Definition replace_each (c : N) (rep s : jsstring) : jsstring :=
  flat_map (fun x => if x =? c then rep else [x]) s.

(** [escapeHtml(text)] *)
Definition escapeHtml (text : jsstring) : jsstring :=
  replace_each 39 (js "&#039;")
    (replace_each 34 (js "&quot;")
       (replace_each 62 (js "&gt;")
          (replace_each 60 (js "&lt;")
             (replace_each 38 (js "&amp;") text)))).

(** The five characters [escapeHtml] rewrites: [&], [<], [>], the double
    and the single quote. *)
Definition special (c : N) : bool :=
  (c =? 38) || (c =? 60) || (c =? 62) || (c =? 34) || (c =? 39).

(** What stands for one character in escaped text. *)
Definition entity (c : N) : jsstring :=
  if c =? 38 then js "&amp;"
  else if c =? 60 then js "&lt;"
  else if c =? 62 then js "&gt;"
  else if c =? 34 then js "&quot;"
  else if c =? 39 then js "&#039;"
  else [c].

(** ** Reading the output of git *)

(** [s.split(sep)] for a separator of one character: the pieces between
    the separators, at least one. *)
Fixpoint split_on (sep : N) (s : jsstring) : list jsstring :=
  match s with
  | [] => [[]]
  | c :: s' =>
      if c =? sep then [] :: split_on sep s'
      else match split_on sep s' with
           | p :: ps => (c :: p) :: ps
           | [] => [[c]]
           end
  end.

(** White space and line terminators, as [trim] sees them. *)
Definition is_space (c : N) : bool :=
  ((9 <=? c) && (c <=? 13)) || (c =? 32) || (c =? 0xA0) || (c =? 0x1680)
  || ((0x2000 <=? c) && (c <=? 0x200A)) || (c =? 0x2028) || (c =? 0x2029)
  || (c =? 0x202F) || (c =? 0x205F) || (c =? 0x3000) || (c =? 0xFEFF).

Fixpoint trimStart (s : jsstring) : jsstring :=
  match s with
  | [] => []
  | c :: s' => if is_space c then trimStart s' else s
  end.

Definition trimEnd (s : jsstring) : jsstring := rev (trimStart (rev s)).

(** [s.trim()] *)
Definition trim (s : jsstring) : jsstring := trimEnd (trimStart s).

(** A string in a condition: the empty string is false. *)
Definition truthy (s : jsstring) : bool :=
  match s with
  | [] => false
  | _ :: _ => true
  end.

(** What a git child has written and how it ended, as the ['close']
    listeners of the browsing helpers see it. *)
Record Child := {
  child_stdout : jsstring;
  child_stderr : jsstring;
  child_code : option Z
}.

Record FileChange := { fc_status : jsstring; fc_path : jsstring }.

(** The callback of [map] in [getCommitFiles]:
    [const [status, ...pathParts] = line.split('\t')]. *)
Definition name_status (line : jsstring) : FileChange :=
  match split_on 9 line with
  | status :: pathParts =>
      {| fc_status := status; fc_path := join [9] pathParts |}
  | [] => {| fc_status := []; fc_path := [] |}
  end.

(** [getCommitFiles(repoPath, hash)], from the end of [git show
    --name-status]: the promise is rejected with a message ([inl]) or
    resolved with the files ([inr]). *)
Definition getCommitFiles (git_show : Child) : jsstring + list FileChange :=
  match child_code git_show with
  | Some 0%Z =>
      inr (map name_status
             (filter (fun l => truthy (trim l))
                     (split_on 10 (child_stdout git_show))))
  | _ =>
      inl (match child_stderr git_show with
           | [] => js "Commit not found"
           | _ :: _ => child_stderr git_show
           end)
  end.

(** [b.trim().replace(/^\* /, '')] *)
Definition branch_name (b : jsstring) : jsstring :=
  match strip (js "* ") (trim b) with
  | Some name => name
  | None => trim b
  end.

(** The branches of [getGitInfo], from the output of [git branch -a]. *)
Definition branches (branchOutput : jsstring) : list jsstring :=
  filter (fun b => truthy b && negb (includes b (js "->")))
         (map branch_name (split_on 10 branchOutput)).

(** The tags and the commits of [getGitInfo]: the lines that are not
    blank, as they are. *)
Definition nonblank_lines (output : jsstring) : list jsstring :=
  filter (fun t => truthy (trim t)) (split_on 10 output).

(** ** The registry and the webhook storage

    The directory tree under [REPOS_DIR] and the two tables of the
    database.  The file system is taken through the three calls the
    registry makes, and through what [git init --bare] does to it; the laws
    are those of calls that succeed. *)

Class Disk (D : Type) := {
  existsSync : D -> jsstring -> bool;
  (** [fs.mkdirSync(path, { recursive: true })] *)
  mkdirSync : jsstring -> D -> D;
  (** [fs.rmSync(path, { recursive: true })] *)
  rmSync : jsstring -> D -> D;
  (** what [git init --bare path] leaves in the directory *)
  git_init : jsstring -> D -> D;
  mkdirSync_exists : forall p d, existsSync (mkdirSync p d) p = true;
  mkdirSync_keeps :
    forall p q d, existsSync d q = true -> existsSync (mkdirSync p d) q = true;
  git_init_keeps :
    forall p q d, existsSync d q = true -> existsSync (git_init p d) q = true;
  rmSync_gone : forall p d, existsSync (rmSync p d) p = false
}.

Record Repository := {
  rp_id : N;
  rp_name : jsstring;
  rp_description : jsstring;
  rp_created_at : jsstring
}.

Record Store (D : Type) := {
  disk : D;
  repositories : list Repository;
  hooks : list Webhook;
  (** whether the connection enforces foreign keys *)
  foreign_keys : bool
}.

Arguments disk {D}.
Arguments repositories {D}.
Arguments hooks {D}.
Arguments foreign_keys {D}.

(** What a call of the registry comes back with: an [error] object, a
    [success] object, or an exception of the database. *)
Inductive Reply :=
| Failure (error : jsstring)
| Created (name : jsstring)
| Deleted
| Raised.

(** [name.endsWith('.git') ? name : `${name}.git`] *)
Definition with_suffix (name : jsstring) : jsstring :=
  if endsWith name (js ".git") then name else name ++ js ".git".

Definition named (name : jsstring) (r : Repository) : bool :=
  str_eqb (rp_name r) name.

Section Registry.
Context `{Node} {D : Type} `{Disk D}.
Variable REPOS : jsstring.

(** [createRepository(name, description)]; [stamp] and [id] are the
    [CURRENT_TIMESTAMP] and the row id the database gives to the row.  The
    insertion raises when the name is already in the table
    ([name TEXT UNIQUE]). *)
Definition createRepository (name description stamp : jsstring) (id : N)
  (st : Store D) : Reply * Store D :=
  let repoName := with_suffix name in
  let repoPath := path_join REPOS repoName in
  if existsSync (disk st) repoPath
  then (Failure (js "Repository already exists"), st)
  else
    let d := git_init repoPath (mkdirSync repoPath (disk st)) in
    if existsb (named repoName) (repositories st)
    then (Raised,
          {| disk := d; repositories := repositories st; hooks := hooks st;
             foreign_keys := foreign_keys st |})
    else (Created repoName,
          {| disk := d;
             repositories :=
               repositories st ++
               [{| rp_id := id; rp_name := repoName;
                   rp_description := description; rp_created_at := stamp |}];
             hooks := hooks st;
             foreign_keys := foreign_keys st |}).

(** [deleteRepository(name)]; when foreign keys are enforced, the rows of
    [webhooks] that refer to a row deleted from [repositories] go with it
    ([ON DELETE CASCADE]): nothing cascades when the [DELETE] finds no
    row. *)
Definition deleteRepository (name : jsstring) (st : Store D) : Reply * Store D :=
  let repoName := with_suffix name in
  let repoPath := path_join REPOS repoName in
  if negb (existsSync (disk st) repoPath)
  then (Failure (js "Repository not found"), st)
  else (Deleted,
        {| disk := rmSync repoPath (disk st);
           repositories := filter (fun r => negb (named repoName r)) (repositories st);
           hooks := if foreign_keys st
                       && existsb (named repoName) (repositories st)
                    then filter (fun w => negb (str_eqb (wh_repo_name w) repoName))
                                (hooks st)
                    else hooks st;
           foreign_keys := foreign_keys st |}).

(** [getRepository(name)] *)
Definition getRepository (name : jsstring) (st : Store D) : option Repository :=
  find (named name) (repositories st).

(** [createWebhook(repoName, url, secret)]: the row gets the default
    [events], ['push'], and from the database its [stamp] and its [id].
    [None] when the insertion raises: with foreign keys enforced,
    [repo_name] must be the name of a repository. *)
Definition createWebhook (repoName url secret stamp : jsstring) (id : N)
  (st : Store D) : option (Store D) :=
  if foreign_keys st && negb (existsb (named repoName) (repositories st))
  then None
  else Some {| disk := disk st; repositories := repositories st;
               hooks :=
                 hooks st ++
                 [{| wh_id := id; wh_repo_name := repoName;
                     wh_url := url; wh_secret := secret;
                     wh_events := js "push"; wh_created_at := stamp |}];
               foreign_keys := foreign_keys st |}.

(** [deleteWebhook(id)] *)
Definition deleteWebhook (id : N) (st : Store D) : Store D :=
  {| disk := disk st; repositories := repositories st;
     hooks := filter (fun w => negb (wh_id w =? id)) (hooks st);
     foreign_keys := foreign_keys st |}.

(** The environment the protocol handlers and the dispatcher run in. *)
Definition env_of (st : Store D) (ticks : nat -> N)
  (run : list jsstring -> list N -> GitRun) (pages : Page -> option jsstring)
  : Env :=
  {| REPOS_DIR := REPOS;
     fs_existsSync := existsSync (disk st);
     webhooks := hooks st;
     clock := ticks;
     git := run;
     render := pages |}.

(** The tables keep what the schema asks: no repository name twice, no
    row id twice. *)
Definition consistent (st : Store D) : Prop :=
  NoDup (map rp_name (repositories st)) /\
  NoDup (map rp_id (repositories st)) /\
  NoDup (map wh_id (hooks st)).
End Registry.

(** A disk for the examples: the paths that exist. *)
Definition under (p q : jsstring) : bool :=
  str_eqb q p || startsWith q (p ++ js "/").

#[local, refine] Instance plain_disk : Disk (list jsstring) := {|
  existsSync := fun d p => existsb (str_eqb p) d;
  mkdirSync := fun p d => p :: d;
  rmSync := fun p d => filter (fun q => negb (under p q)) d;
  git_init := fun p d => (p ++ js "/HEAD") :: d
|}.
Proof.
  - intros p d. cbn [existsb]. apply orb_true_iff. left.
    clear. induction p as [|c p IH]; [reflexivity|].
    cbn [str_eqb]. rewrite N.eqb_refl. exact IH.
  - intros p q d E. cbn [existsb]. rewrite E. apply orb_true_r.
  - intros p q d E. cbn [existsb]. rewrite E. apply orb_true_r.
  - intros p d. induction d as [|q d IH]; [reflexivity|].
    cbn [filter]. destruct (under p q) eqn:E; cbn [negb]; [exact IH|].
    cbn [existsb]. rewrite IH, orb_false_r.
    unfold under in E. apply orb_false_iff in E. destruct E as [E _].
    destruct (str_eqb p q) eqn:F; [|reflexivity].
    clear - E F. exfalso. revert q E F.
    induction p as [|c p IH]; intros [|x q] E F; try discriminate.
    cbn [str_eqb] in *. rewrite N.eqb_sym in E.
    destruct (c =? x); [|discriminate]. cbn [andb] in *. exact (IH q E F).
Defined.

Definition empty_store : Store (list jsstring) :=
  {| disk := []; repositories := []; hooks := []; foreign_keys := true |}.

(** A store whose table has the row of [demo.git] while the directory is
    not there. *)
Definition stale_store : Store (list jsstring) :=
  {| disk := [];
     repositories := [{| rp_id := 1; rp_name := js "demo.git";
                         rp_description := []; rp_created_at := js "2026-01-01 10:00:00" |}];
     hooks := []; foreign_keys := true |}.

(** ** Rendering a diff *)

(** The opening tags of the source all have the shape
    [<name class=...>], the class between double quotes. *)
Definition open_tag (name cls : string) : jsstring :=
  js "<" ++ js name ++ js " class=" ++ [34] ++ js cls ++ [34] ++ js ">".

Definition close_tag (name : string) : jsstring :=
  js "</" ++ js name ++ js ">".

(** The paragraph shown for a diff without content. *)
Definition no_changes : jsstring :=
  open_tag "p" "empty" ++ js "No changes" ++ close_tag "p".

(** The group of [line.match(/b\/(.+)$/)]: the pattern matches at the
    first [b/] that is followed, up to the end of the line, by at least one
    character and by no line terminator; the group is what follows. *)
Fixpoint match_b (line : jsstring) : option jsstring :=
  match line with
  | [] => None
  | c :: rest =>
      let here :=
        match rest with
        | d :: file =>
            (c =? 98) && (d =? 47) && truthy file && dot_star file
        | [] => false
        end in
      if here then Some (skipn 1 rest) else match_b rest
  end.

(** The variables of the loop of [formatDiff]. *)
Record Diff := { html : jsstring; inFile : bool; currentFile : jsstring }.

Definition add_html (st : Diff) (more : jsstring) : Diff :=
  {| html := html st ++ more; inFile := inFile st; currentFile := currentFile st |}.

(** [`<span class="cls">${escaped}</span>\n`] *)
Definition span (cls : string) (escaped : jsstring) : jsstring :=
  open_tag "span" cls ++ escaped ++ close_tag "span" ++ [10].

(** The header of a file, up to the opening of its content. *)
Definition file_header (file : jsstring) : jsstring :=
  open_tag "div" "diff-file" ++ open_tag "div" "diff-file-header" ++
  escapeHtml file ++ close_tag "div" ++ open_tag "pre" "diff-content".

Definition file_end : jsstring := close_tag "pre" ++ close_tag "div".

(** One pass of the loop of [formatDiff]. *)
Definition diff_line (st : Diff) (line : jsstring) : Diff :=
  let escaped := escapeHtml line in
  if startsWith line (js "diff --git") then
    let st1 := if inFile st then add_html st file_end else st in
    let file := match match_b line with Some f => f | None => [] end in
    {| html := html st1 ++ file_header file; inFile := true; currentFile := file |}
  else if startsWith line (js "@@") then
    add_html st (span "diff-hunk" escaped)
  else if startsWith line (js "+") && negb (startsWith line (js "+++")) then
    add_html st (span "diff-add" escaped)
  else if startsWith line (js "-") && negb (startsWith line (js "---")) then
    add_html st (span "diff-del" escaped)
  else if startsWith line (js "index ") || startsWith line (js "---")
          || startsWith line (js "+++") then
    add_html st (span "diff-meta" escaped)
  else if inFile st then
    add_html st (escaped ++ [10])
  else st.

Definition diff_start : Diff := {| html := []; inFile := false; currentFile := [] |}.

(** [formatDiff(diff)] *)
Definition formatDiff (diff : jsstring) : jsstring :=
  if negb (truthy diff) then no_changes
  else
    let st := fold_left diff_line (split_on 10 diff) diff_start in
    let st := if inFile st then add_html st file_end else st in
    if truthy (html st) then html st else no_changes.

(** The lines [formatDiff] recognises whether or not a file is open. *)
Definition marked (line : jsstring) : bool :=
  startsWith line (js "diff --git") || startsWith line (js "@@") ||
  startsWith line (js "+") || startsWith line (js "-") ||
  startsWith line (js "index ").

(** Markup as a sequence of tags and text. *)
Inductive Piece :=
| Open (name cls : string)
| Close (name : string)
| Text (text : jsstring).

Definition piece_html (p : Piece) : jsstring :=
  match p with
  | Open name cls => open_tag name cls
  | Close name => close_tag name
  | Text text => text
  end.

(** The elements left open after [pieces], the innermost first, when every
    closing tag closes the innermost open element. *)
Fixpoint nesting (stack : list string) (pieces : list Piece)
  : option (list string) :=
  match pieces with
  | [] => Some stack
  | Open name _ :: rest => nesting (name :: stack) rest
  | Close name :: rest =>
      match stack with
      | top :: below => if String.eqb top name then nesting below rest else None
      | [] => None
      end
  | Text _ :: rest => nesting stack rest
  end.

(** The tags [formatDiff] writes. *)
Definition diff_tags : list (string * string) :=
  [("p", "empty"); ("div", "diff-file"); ("div", "diff-file-header");
   ("pre", "diff-content"); ("span", "diff-hunk"); ("span", "diff-add");
   ("span", "diff-del"); ("span", "diff-meta")]%string.

(** A piece of the rendering of [diff]: one of the tags above, or text
    that went through [escapeHtml] and is a line of the diff, the end of
    one, a line feed or the words of the empty case. *)
Definition diff_piece (lines : list jsstring) (p : Piece) : Prop :=
  match p with
  | Open name cls => In (name, cls) diff_tags
  | Close name => In name (map fst diff_tags)
  | Text text =>
      exists s,
        text = escapeHtml s /\
        (s = js "No changes" \/ s = [10] \/
         exists line pre, In line lines /\ line = pre ++ s)
  end.

(** The tags of a rendered diff, as written. *)
Definition diff_markup : list jsstring :=
  map (fun t => open_tag (fst t) (snd t)) diff_tags ++
  map close_tag (map fst diff_tags).

(** * Properties *)

Ltac Zify.zify_post_hook ::= Z.to_euclidean_division_equations.

(** ** Strings *)

Lemma str_eqb_eq (a b : jsstring) : str_eqb a b = true <-> a = b.
Proof.
  revert b; induction a as [|x a IH]; intros [|y b]; simpl;
    try (split; [discriminate | discriminate]); try tauto.
  rewrite andb_true_iff, N.eqb_eq, IH.
  split; [intros [-> ->]; reflexivity | intros E; inversion E; auto].
Qed.

Lemma str_eqb_refl (a : jsstring) : str_eqb a a = true.
Proof. apply str_eqb_eq; reflexivity. Qed.

Lemma startsWith_spec (s p : jsstring) :
  startsWith s p = true <-> exists t, s = p ++ t.
Proof.
  revert s; induction p as [|y p IH]; intros s; simpl.
  - split; [exists s; reflexivity | reflexivity].
  - destruct s as [|x s].
    + split; [discriminate | intros [t E]; discriminate].
    + rewrite andb_true_iff, N.eqb_eq, IH. split.
      * intros [-> [t ->]]. exists t; reflexivity.
      * intros [t E]. inversion E; subst. split; [reflexivity | exists t; reflexivity].
Qed.

Lemma includes_spec (s p : jsstring) :
  includes s p = true <-> exists pre post, s = pre ++ p ++ post.
Proof.
  induction s as [|c s IH].
  - simpl. rewrite orb_false_r, startsWith_spec. split.
    + intros [t E]. exists [], t. exact E.
    + intros [pre [post E]]. destruct pre; [exists post; exact E | discriminate].
  - cbn [includes]. rewrite orb_true_iff, startsWith_spec, IH. split.
    + intros [[t E] | [pre [post E]]].
      * exists [], t. exact E.
      * exists (c :: pre), post. rewrite E. reflexivity.
    + intros [[|x pre] [post E]].
      * left. exists post. exact E.
      * right. inversion E; subst. exists pre, post. reflexivity.
Qed.

Lemma utf8_ascii (s : jsstring) : is_ascii s = true -> utf8 s = s.
Proof.
  unfold is_ascii. induction s as [|c s IH]; [reflexivity|].
  cbn [forallb utf8]. rewrite andb_true_iff. intros [Hc Hs].
  rewrite Hc, IH; auto.
Qed.

Lemma byteLength_ascii (s : jsstring) :
  is_ascii s = true -> byteLength s = length s.
Proof. intros E. unfold byteLength. rewrite utf8_ascii; auto. Qed.

(** ** Packet lines *)

Lemma digit_char_value (d : N) : d < 16 -> hex_value (digit_char d) = Some d.
Proof.
  intros Hd. unfold digit_char, hex_value.
  destruct (N.ltb_spec d 10).
  - replace ((48 <=? 48 + d) && (48 + d <=? 57)) with true.
    + f_equal; lia.
    + symmetry. apply andb_true_iff. split; apply N.leb_le; lia.
  - replace ((48 <=? 87 + d) && (87 + d <=? 57)) with false.
    + replace ((97 <=? 87 + d) && (87 + d <=? 102)) with true.
      * f_equal; lia.
      * symmetry. apply andb_true_iff. split; apply N.leb_le; lia.
    + symmetry. apply andb_false_iff. right. apply N.leb_gt. lia.
Qed.

Lemma digit_char_lower (d : N) : d < 16 -> lower_hex (digit_char d) = true.
Proof.
  intros Hd. unfold digit_char, lower_hex, is_digit.
  destruct (N.ltb_spec d 10); apply orb_true_iff; [left | right];
    apply andb_true_iff; split; apply N.leb_le; lia.
Qed.

Lemma log2_fuel (n : N) (k : nat) :
  2 ^ N.of_nat k <= n -> exists j, N.to_nat (N.log2 n) = (k + j)%nat.
Proof.
  intros Hn.
  assert (N.of_nat k <= N.log2 n).
  { rewrite <- (N.log2_pow2 (N.of_nat k)) by lia. apply N.log2_le_mono. exact Hn. }
  exists (N.to_nat (N.log2 n) - k)%nat. lia.
Qed.

Lemma toString16_four_digits (n : N) :
  n < 65536 -> padStart (toString 16 n) 4 48 = four_digits n.
Proof.
  intros Hn. unfold toString, four_digits.
  destruct (N.ltb_spec n 16) as [H1|H1].
  { simpl digits_from. replace (n <? 16) with true by (symmetry; apply N.ltb_lt; lia).
    rewrite (N.div_small n 16) by lia.
    rewrite (N.mod_small n 16) by lia. reflexivity. }
  destruct (log2_fuel n 4) as [j Hj]; [simpl; lia|]. rewrite Hj. clear Hj.
  cbn [digits_from Nat.add].
  replace (n <? 16) with false by (symmetry; apply N.ltb_ge; lia).
  destruct (N.ltb_spec (n / 16) 16) as [H2|H2].
  { rewrite (N.div_small (n / 16) 16) by lia.
    rewrite (N.mod_small (n / 16) 16) by lia. reflexivity. }
  destruct (N.ltb_spec (n / 16 / 16) 16) as [H3|H3].
  { rewrite (N.div_small (n / 16 / 16) 16) by lia.
    rewrite (N.mod_small (n / 16 / 16) 16) by lia. reflexivity. }
  replace (n / 16 / 16 / 16 <? 16) with true; [reflexivity|].
  symmetry. apply N.ltb_lt. lia.
Qed.

(** The recursion of [toString] never runs out: with any fuel above the
    binary length of the number the digits are the same. *)
Lemma digits_from_fuel (radix : N) :
  2 <= radix ->
  forall (f1 f2 : nat) (n : N) (acc : jsstring),
    n < 2 ^ N.of_nat (S f1) -> n < 2 ^ N.of_nat (S f2) ->
    digits_from (S f1) radix n acc = digits_from (S f2) radix n acc.
Proof.
  intros Hr. induction f1 as [|f1 IH]; intros f2 n acc H1 H2.
  - cbn [digits_from]. change (2 ^ N.of_nat 1) with 2 in H1.
    replace (n <? radix) with true by (symmetry; apply N.ltb_lt; lia).
    reflexivity.
  - cbn [digits_from]. destruct (N.ltb_spec n radix) as [Hn|Hn]; [reflexivity|].
    assert (Hhalf : forall k, n < 2 ^ N.of_nat (S k) -> n / radix < 2 ^ N.of_nat k).
    { intros k Hk. apply N.Div0.div_lt_upper_bound.
      rewrite Nat2N.inj_succ, N.pow_succ_r' in Hk.
      apply N.lt_le_trans with (2 * 2 ^ N.of_nat k); [exact Hk|].
      apply N.mul_le_mono_r. exact Hr. }
    destruct f2 as [|f2].
    + change (2 ^ N.of_nat 1) with 2 in H2. lia.
    + apply IH; apply Hhalf; assumption.
Qed.

Lemma toString_fuel (radix n : N) (f : nat) :
  2 <= radix -> n < 2 ^ N.of_nat (S f) ->
  toString radix n = digits_from (S f) radix n [].
Proof.
  intros Hr Hn. unfold toString. apply digits_from_fuel; [exact Hr| |exact Hn].
  rewrite Nat2N.inj_succ, N2Nat.id.
  destruct n as [|p]; [reflexivity|].
  apply N.log2_spec. reflexivity.
Qed.

Lemma four_digits_number (n : N) :
  n < 65536 -> hex_number (four_digits n) = Some n.
Proof.
  intros Hn. unfold hex_number, four_digits. cbn [fold_left].
  rewrite !digit_char_value by lia. f_equal. lia.
Qed.

Lemma four_digits_lower (n : N) :
  n < 65536 -> forallb lower_hex (four_digits n) = true.
Proof.
  intros Hn. unfold four_digits. cbn [forallb].
  rewrite !digit_char_lower by lia. reflexivity.
Qed.

Lemma pkt_decode_four_digits (n : N) (line rest : jsstring) :
  4 <= n <= 65520 -> N.to_nat (n - 4) = length line ->
  pkt_decode (four_digits n ++ line ++ rest) = Some (line, rest).
Proof.
  intros Hn Hlen. unfold pkt_decode, four_digits. cbn [app].
  rewrite !digit_char_value by lia.
  replace (((n / 16 / 16 / 16 * 16 + (n / 16 / 16) mod 16) * 16
            + (n / 16) mod 16) * 16 + n mod 16) with n by lia.
  unfold pkt_max.
  replace (n <? 4) with false by (symmetry; apply N.ltb_ge; lia).
  replace (65520 <? n) with false by (symmetry; apply N.ltb_ge; lia).
  cbn [orb]. rewrite Hlen.
  replace (length line <=? length (line ++ rest))%nat with true.
  - rewrite firstn_app, skipn_app, Nat.sub_diag, firstn_all, skipn_all.
    cbn [firstn skipn]. rewrite app_nil_r. reflexivity.
  - symmetry. apply Nat.leb_le. rewrite length_app. lia.
Qed.

(** On strings: for every line [L] of at most 65516 UTF-16 code units,
    [packetLine L] is [L] behind four lowercase hexadecimal digits whose
    value is [L.length + 4], the length being counted in code units; that
    length is the byte length of [L] when [L] is ASCII.  Decoding a string
    that starts with [packetLine L] gives back [L] and the rest, and two
    lines with the same encoding are equal. *)
Lemma packetLine_spec (L : jsstring) :
  N.of_nat (length L) <= 65516 ->
  exists prefix,
    packetLine L = prefix ++ L /\
    length prefix = 4%nat /\
    forallb lower_hex prefix = true /\
    hex_number prefix = Some (N.of_nat (length L) + 4) /\
    (forall rest, pkt_decode (packetLine L ++ rest) = Some (L, rest)) /\
    (forall L', N.of_nat (length L') <= 65516 -> packetLine L' = packetLine L -> L' = L) /\
    (is_ascii L = true -> byteLength L = length L).
Proof.
  intros HL.
  assert (Hpl : forall K, N.of_nat (length K) <= 65516 ->
                packetLine K = four_digits (N.of_nat (length K) + 4) ++ K).
  { intros K HK. unfold packetLine. rewrite toString16_four_digits by lia. reflexivity. }
  assert (Hdec : forall K rest, N.of_nat (length K) <= 65516 ->
                 pkt_decode (packetLine K ++ rest) = Some (K, rest)).
  { intros K rest HK. rewrite (Hpl K HK), <- app_assoc.
    apply pkt_decode_four_digits; lia. }
  exists (four_digits (N.of_nat (length L) + 4)).
  split; [apply Hpl; exact HL|].
  split; [reflexivity|].
  split; [apply four_digits_lower; lia|].
  split; [apply four_digits_number; lia|].
  split; [intros rest; apply Hdec; exact HL|].
  split; [|apply byteLength_ascii].
  intros L' HL' E.
  pose proof (Hdec L' [] HL') as D'. pose proof (Hdec L [] HL) as D.
  rewrite E in D'. rewrite D in D'. inversion D'. reflexivity.
Qed.


(** ** Discovery *)

(** C3, as amended: the discovery response of an existing repository begins
    with [packetLine("# service=<service>\n")] and the flush packet, ahead
    of the advertisement of git: the bytes [001e# service=git-upload-pack\n0000]
    for [git-upload-pack] and [001f# service=git-receive-pack\n0000] for
    [git-receive-pack], whose announcement is one character longer. *)
Theorem discovery_announcement `{Node} (e : Env) (repoName service : jsstring) :
  fs_existsSync e (getRepoPath e repoName) = true ->
  service = js "git-upload-pack" \/ service = js "git-receive-pack" ->
  let h := handleInfoRefs e repoName service in
  let advertisement :=
    stdout (git e [replace service (js "git-") []; js "--stateless-rpc";
                   js "--advertise-refs"; getRepoPath e repoName] []) in
  status (response h) = 200 /\
  body (response h) =
    utf8 (packetLine (js "# service=" ++ service ++ [nl]) ++ flushPkt)
    ++ advertisement /\
  (service = js "git-upload-pack" ->
   packetLine (js "# service=" ++ service ++ [nl]) ++ flushPkt =
     js "001e# service=git-upload-pack" ++ [nl] ++ js "0000") /\
  (service = js "git-receive-pack" ->
   packetLine (js "# service=" ++ service ++ [nl]) ++ flushPkt =
     js "001f# service=git-receive-pack" ++ [nl] ++ js "0000").
Proof.
  intros Hex Hsvc h advertisement. subst h advertisement.
  unfold handleInfoRefs. rewrite Hex. cbn [negb response status body].
  split; [reflexivity|]. split.
  - rewrite app_assoc. f_equal.
    destruct Hsvc as [-> | ->]; vm_compute; reflexivity.
  - split; intros ->; vm_compute; reflexivity.
Qed.

Lemma discovery_announcement_witness :
  exists advertisement,
    body (response (handleInfoRefs quiet (js "test-repo.git") (js "git-upload-pack"))) =
    utf8 (js "001e# service=git-upload-pack" ++ [nl] ++ js "0000")
    ++ advertisement.
Proof.
  destruct (discovery_announcement quiet (js "test-repo.git") (js "git-upload-pack"))
    as [_ [E [U _]]].
  - vm_compute. reflexivity.
  - left. reflexivity.
  - eexists. rewrite E, U; reflexivity.
Defined.

(** C3, as stated, fails for [git-receive-pack]: its announcement has 27
    characters, so the length prefix is [001f], not [001e]. *)
Lemma discovery_prefix_counterexample :
  let h := handleInfoRefs quiet
             (js "test-repo.git") (js "git-receive-pack") in
  status (response h) = 200 /\
  startsWith (body (response h))
    (utf8 (js "001e# service=git-receive-pack" ++ [nl] ++ js "0000")) = false /\
  startsWith (body (response h))
    (utf8 (js "001f# service=git-receive-pack" ++ [nl] ++ js "0000")) = true.
Proof. vm_compute. repeat split. Qed.

(** ** The webhooks of a repository *)

Lemma insert_desc_perm (w : Webhook) (l : list Webhook) :
  Permutation (insert_desc w l) (w :: l).
Proof.
  induction l as [|v l IH]; simpl; [apply Permutation_refl|].
  destruct (str_leb (wh_created_at v) (wh_created_at w)).
  - apply Permutation_refl.
  - eapply perm_trans; [apply perm_skip; exact IH | apply perm_swap].
Qed.

Lemma order_by_perm (l : list Webhook) :
  Permutation (order_by_created_at_desc l) l.
Proof.
  induction l as [|w l IH]; simpl; [apply perm_nil|].
  eapply perm_trans; [apply insert_desc_perm | apply perm_skip; exact IH].
Qed.

Lemma filter_perm {A} (f : A -> bool) (l l' : list A) :
  Permutation l l' -> Permutation (filter f l) (filter f l').
Proof.
  induction 1 as [|x l l' _ IH|x y l|l l' l'' _ IH1 _ IH2]; simpl.
  - apply perm_nil.
  - destruct (f x); [apply perm_skip|]; exact IH.
  - destruct (f x), (f y); try apply Permutation_refl. apply perm_swap.
  - eapply perm_trans; eassumption.
Qed.

Lemma filter_filter {A} (f g : A -> bool) (l : list A) :
  filter f (filter g l) = filter (fun x => g x && f x) l.
Proof.
  induction l as [|x l IH]; simpl; [reflexivity|].
  destruct (g x); simpl; [destruct (f x)|]; rewrite IH; reflexivity.
Qed.

Lemma listWebhooks_filter (table : list Webhook) (repoName event : jsstring) :
  Permutation
    (filter (fun w => includes (wh_events w) event) (listWebhooks table repoName))
    (filter (subscribed repoName event) table).
Proof.
  unfold listWebhooks, subscribed. rewrite <- filter_filter.
  apply filter_perm, order_by_perm.
Qed.

(** ** One pass of the loop *)

Section Dispatcher.
Context `{Node}.
Variables (e : Env) (repoName event : jsstring) (payload : JSObject).

Lemma deliver_skip (w : Webhook) (s : DState) :
  includes (wh_events w) event = false ->
  snd (deliver e repoName event payload w s) = s.
Proof. intros E. unfold deliver. rewrite E. reflexivity. Qed.

Lemma deliver_attempt (w : Webhook) (s : DState) :
  includes (wh_events w) event = true ->
  exists a,
    attempts (snd (deliver e repoName event payload w s)) = attempts s ++ [a] /\
    att_webhook a = w /\ delivered repoName event payload a /\
    log (snd (deliver e repoName event payload w s)) =
      log s ++ (if sent a then [] else [LogError (wh_url w)]).
Proof.
  intros E. unfold deliver. rewrite E. cbn [negb]. cbn zeta.
  unfold bind, now, console, attempt. cbn [fst snd].
  destruct (URL_new (wh_url w) None) as [u|] eqn:EU.
  - match goal with
    | |- context [request_throws ?h ?o] => destruct (request_throws h o) eqn:ET
    end.
    + eexists. split; [reflexivity|]. split; [reflexivity|].
      split; [|reflexivity].
      unfold delivered. cbn [att_webhook att_payload att_body att_request].
      rewrite E. split; [reflexivity|]. split; [eexists; reflexivity|].
      split; [reflexivity|].
      right. exists u. eexists. split; [exact EU|]. split; [exact ET|].
      cbn [opt_method opt_hostname opt_port opt_path opt_headers].
      destruct (wh_secret w); repeat split; reflexivity.
    + eexists. split; [reflexivity|]. split; [reflexivity|].
      split; [|cbn [log sent att_request]; rewrite app_nil_r; reflexivity].
      unfold delivered. cbn [att_webhook att_payload att_body att_request].
      rewrite E. split; [reflexivity|]. split; [eexists; reflexivity|].
      split; [reflexivity|].
      split; [exists u; repeat split; [exact EU | reflexivity..]|].
      split; [exact ET|].
      cbn [rq_method rq_body rq_headers opt_method opt_headers].
      split; [reflexivity|]. split; [reflexivity|].
      destruct (wh_secret w) as [|c k] eqn:ES.
      * repeat split; try reflexivity. eexists; reflexivity.
      * repeat split; try reflexivity. eexists; reflexivity.
  - eexists. split; [reflexivity|]. split; [reflexivity|].
    split; [|reflexivity].
    unfold delivered. cbn [att_webhook att_payload att_body att_request].
    rewrite E. split; [reflexivity|]. split; [eexists; reflexivity|].
    split; [reflexivity|]. left. exact EU.
Qed.

(** What a pass does to the clock and to the attempts does not depend on
    the log. *)
Lemma deliver_log_blind (w : Webhook) (s1 s2 : DState) :
  reads s1 = reads s2 -> attempts s1 = attempts s2 ->
  reads (snd (deliver e repoName event payload w s1)) =
    reads (snd (deliver e repoName event payload w s2)) /\
  attempts (snd (deliver e repoName event payload w s1)) =
    attempts (snd (deliver e repoName event payload w s2)).
Proof.
  intros Er Ea. unfold deliver.
  destruct (includes (wh_events w) event); cbn [negb].
  - cbn zeta. unfold bind, now, console, attempt. cbn [fst snd].
    destruct (URL_new (wh_url w) None); cbn [fst snd reads attempts].
    + rewrite Er.
      match goal with
      | |- context [request_throws ?h ?o] => destruct (request_throws h o)
      end; cbn [fst snd reads attempts]; rewrite Ea; split; reflexivity.
    + rewrite Er, Ea; split; reflexivity.
  - cbn. split; assumption.
Qed.

Lemma for_of_cons {A} (x : A) (l : list A) (body : A -> M unit) (s : DState) :
  snd (for_of (x :: l) body s) = snd (for_of l body (snd (body x s))).
Proof. cbn [for_of]. unfold bind. destruct (body x s); reflexivity. Qed.

Lemma for_of_log_blind (l : list Webhook) (s1 s2 : DState) :
  reads s1 = reads s2 -> attempts s1 = attempts s2 ->
  attempts (snd (for_of l (deliver e repoName event payload) s1)) =
    attempts (snd (for_of l (deliver e repoName event payload) s2)).
Proof.
  revert s1 s2. induction l as [|w l IH]; intros s1 s2 Er Ea.
  - exact Ea.
  - rewrite !for_of_cons.
    destruct (deliver_log_blind w s1 s2 Er Ea) as [Er' Ea'].
    apply IH; assumption.
Qed.

(** The loop leaves one attempt for each subscription that passes the
    filter, in the order of the loop, and nothing else; it logs one error
    for each attempt that issued no request. *)
Lemma for_of_deliver (l : list Webhook) (s : DState) :
  exists new,
    attempts (snd (for_of l (deliver e repoName event payload) s)) =
      attempts s ++ new /\
    map att_webhook new = filter (fun w => includes (wh_events w) event) l /\
    Forall (delivered repoName event payload) new /\
    log (snd (for_of l (deliver e repoName event payload) s)) =
      log s ++ map (fun a => LogError (wh_url (att_webhook a)))
                   (filter (fun a => negb (sent a)) new).
Proof.
  revert s. induction l as [|w l IH]; intros s.
  - exists []. cbn. rewrite !app_nil_r. auto.
  - rewrite for_of_cons. cbn [filter].
    destruct (includes (wh_events w) event) eqn:E.
    + destruct (deliver_attempt w s E) as [a [Ea [Ew [Hd Hl]]]].
      destruct (IH (snd (deliver e repoName event payload w s)))
        as [new [En [Em [Hf Hlog]]]].
      exists (a :: new). rewrite En, Ea, <- app_assoc. cbn [app map].
      rewrite Ew, Em. split; [reflexivity|]. split; [reflexivity|].
      split; [constructor; assumption|].
      rewrite Hlog, Hl, <- app_assoc. f_equal. cbn [filter].
      destruct (sent a); cbn [negb app map]; rewrite ?Ew; reflexivity.
    + rewrite (deliver_skip w s E). apply IH.
Qed.
End Dispatcher.

Lemma triggerWebhooks_attempts `{Node} (e : Env) (repoName event : jsstring)
  (payload : JSObject) :
  Permutation
    (map att_webhook (attempts (snd (triggerWebhooks e repoName event payload idle))))
    (filter (subscribed repoName event) (webhooks e)) /\
  Forall (delivered repoName event payload)
    (attempts (snd (triggerWebhooks e repoName event payload idle))).
Proof.
  unfold triggerWebhooks.
  destruct (for_of_deliver e repoName event payload
              (listWebhooks (webhooks e) repoName) idle) as [new [En [Em [Hf _]]]].
  rewrite En. cbn [idle attempts app]. split; [|exact Hf].
  rewrite Em. apply listWebhooks_filter.
Qed.


(** ** Receive-pack and the dispatch *)



(** C8: whatever the request body of the push, that is whatever refs it
    updates, every payload built after a receive-pack has [ref] set to
    [refs/heads/main]; the body sent is the JSON text of the object with the
    properties [event], [repository], [timestamp] and [ref], in this order. *)
Theorem receive_pack_ref `{Node} (e : Env) (repoName : jsstring)
  (reqBody : list N) (a : Attempt) :
  In a (attempts (dispatch (handleReceivePack e repoName reqBody))) ->
  obj_get (att_payload a) (js "ref") = Some (js "refs/heads/main") /\
  exists date,
    att_body a =
      JSON_stringify [(js "event", js "push"); (js "repository", repoName);
                      (js "timestamp", toISOString date);
                      (js "ref", js "refs/heads/main")].
Proof.
  unfold handleReceivePack.
  destruct (fs_existsSync e (getRepoPath e repoName)); cbn [negb];
    [|intros []].
  cbn [dispatch].
  destruct (exit_code _) as [[|p|p]|]; cbn [on_close]; try (intros []).
  intros Hin.
  destruct (triggerWebhooks_attempts e repoName (js "push")
              [(js "ref", js "refs/heads/main")]) as [_ Hf].
  rewrite Forall_forall in Hf. destruct (Hf a Hin) as [_ [[date Hp] [Hb _]]].
  rewrite Hb, Hp. split; [reflexivity|]. exists date. reflexivity.
Qed.

Lemma receive_pack_ref_witness :
  exists a,
    In a (attempts (dispatch (handleReceivePack
            pushed
            (js "test-repo.git") (utf8 (js "0000"))))) /\
    obj_get (att_payload a) (js "ref") = Some (js "refs/heads/main").
Proof.
  destruct (attempts (dispatch (handleReceivePack
            pushed
            (js "test-repo.git") (utf8 (js "0000"))))) as [|a l] eqn:E.
  - vm_compute in E. discriminate E.
  - exists a. split; [left; reflexivity|].
    apply (receive_pack_ref
             pushed
             (js "test-repo.git") (utf8 (js "0000")) a).
    rewrite E. left. reflexivity.
Defined.

(** ** Signatures *)

(** C6: a request issued by the dispatcher carries the UTF-8 bytes of the
    serialised body; when the subscription has a non-empty secret its
    signature header is [sha256=] followed by the lowercase hexadecimal
    digest of HMAC-SHA256 keyed by the secret over exactly those bytes;
    when the secret is empty the request has no signature header. *)
Theorem signature_header_spec `{Node} (e : Env) (repoName event : jsstring)
  (payload : JSObject) (a : Attempt) (r : ClientRequest) :
  In a (attempts (snd (triggerWebhooks e repoName event payload idle))) ->
  att_request a = Some r ->
  rq_body r = utf8 (att_body a) /\
  att_body a = JSON_stringify (att_payload a) /\
  (wh_secret (att_webhook a) <> [] ->
   obj_get (rq_headers r) signature_header =
     Some (js "sha256=" ++
           hex_of_bytes (hmac_sha256 (utf8 (wh_secret (att_webhook a)))
                                     (rq_body r)))) /\
  (wh_secret (att_webhook a) = [] ->
   obj_get (rq_headers r) signature_header = None).
Proof.
  intros Hin Hr.
  destruct (triggerWebhooks_attempts e repoName event payload) as [_ Hf].
  rewrite Forall_forall in Hf. destruct (Hf a Hin) as [_ [_ [Hb Hq]]].
  rewrite Hr in Hq. destruct Hq as [_ [_ [_ [Hbody [_ [_ [_ Hsig]]]]]]].
  split; [exact Hbody|]. split; [exact Hb|].
  rewrite Hsig. split.
  - intros Hs. destruct (wh_secret (att_webhook a)); [contradiction|reflexivity].
  - intros ->. reflexivity.
Qed.

Lemma signature_header_spec_witness :
  exists a r,
    In a (attempts (snd (triggerWebhooks
            pushed
            (js "test-repo.git") (js "push") [] idle))) /\
    att_request a = Some r /\
    rq_body r = utf8 (att_body a).
Proof.
  destruct (attempts (snd (triggerWebhooks
            pushed
            (js "test-repo.git") (js "push") [] idle))) as [|a l] eqn:E.
  - vm_compute in E. discriminate E.
  - destruct (att_request a) as [r|] eqn:Er.
    + exists a, r. split; [left; reflexivity|]. split; [exact Er|].
      apply (signature_header_spec
               pushed
               (js "test-repo.git") (js "push") [] a r).
      * rewrite E. left. reflexivity.
      * exact Er.
    + exfalso. vm_compute in E. injection E as Ea _. subst a.
      discriminate Er.
Defined.

(** ** The event filter *)

(** C10: a subscription gets an attempt for the event [push] exactly when it
    is stored for the repository and its [events] string contains [push] as
    a substring; so [pushover] and [nopush] are dispatched as well. *)
Theorem event_filter_is_substring `{Node} (e : Env) (repoName : jsstring)
  (payload : JSObject) (w : Webhook) :
  (In w (map att_webhook
           (attempts (snd (triggerWebhooks e repoName (js "push") payload idle))))
   <-> In w (webhooks e) /\ wh_repo_name w = repoName /\
       exists pre post, wh_events w = pre ++ js "push" ++ post) /\
  includes (js "pushover") (js "push") = true /\
  includes (js "nopush") (js "push") = true.
Proof.
  split; [|split; reflexivity].
  destruct (triggerWebhooks_attempts e repoName (js "push") payload) as [Hp _].
  assert (Hs : In w (filter (subscribed repoName (js "push")) (webhooks e)) <->
               In w (webhooks e) /\ wh_repo_name w = repoName /\
               exists pre post, wh_events w = pre ++ js "push" ++ post).
  { rewrite filter_In. unfold subscribed.
    rewrite andb_true_iff, str_eqb_eq, includes_spec. tauto. }
  rewrite <- Hs. split; intros Hin.
  - eapply Permutation_in; [exact Hp | exact Hin].
  - eapply Permutation_in; [apply Permutation_sym; exact Hp | exact Hin].
Qed.

(** ** Delivery identifiers *)

(** C9 does not hold of the code: the delivery identifier is the clock
    reading in milliseconds, so the two requests of one push, issued within
    the same millisecond, carry the same identifier. *)
Lemma delivery_id_collision :
  map (fun r => obj_get (rq_headers r) delivery_header)
      (outbox (dispatch (handleReceivePack
                 (demo_env demo_hooks (Some 0%Z) same_millisecond)
                 (js "test-repo.git") []))) =
  [Some (js "1700000000000"); Some (js "1700000000000")].
Proof. vm_compute. reflexivity. Qed.

(** ** Independence of the deliveries *)

Section Independence.
Context `{Node}.
Variables (e : Env) (repoName event : jsstring) (payload : JSObject).

Let body := deliver e repoName event payload.
Let final := snd (triggerWebhooks e repoName event payload idle).

Lemma on_event_only_logs (w : Webhook) (ev : NetEvent) (d : DState) :
  reads (snd (on_event w ev d)) = reads d /\
  attempts (snd (on_event w ev d)) = attempts d /\
  exists entry, log (snd (on_event w ev d)) = log d ++ [entry].
Proof.
  destruct ev; cbn; repeat split; eexists; reflexivity.
Qed.

Lemma step_invariant (s s' : Sys) :
  step e repoName event payload s s' ->
  client s' = client s /\
  attempts (snd (for_of (pending s') body (dstate s'))) =
    attempts (snd (for_of (pending s) body (dstate s))).
Proof.
  intros Hs. destruct Hs as [w ws d c | i a r ev ws d c Hn Hr];
    cbn [client pending dstate]; split; try reflexivity.
  - subst body. rewrite for_of_cons. reflexivity.
  - destruct (on_event_only_logs (att_webhook a) ev d) as [Er [Ea _]].
    subst body. apply for_of_log_blind; assumption.
Qed.

Lemma steps_invariant (c : Response) (s : Sys) :
  steps e repoName event payload (started e repoName c) s ->
  client s = c /\
  attempts (snd (for_of (pending s) body (dstate s))) = attempts final.
Proof.
  remember (started e repoName c) as s0 eqn:E0.
  induction 1 as [s|s1 s2 s3 _ IH Hstep].
  - subst s. split; reflexivity.
  - destruct (IH E0) as [Hc Ha].
    destruct (step_invariant s2 s3 Hstep) as [Hc' Ha'].
    split; congruence.
Qed.
End Independence.

(** C7: in every interleaving of the loop of [triggerWebhooks] with the
    answers and connection errors of the requests already issued, the
    response sent to the pushing client stays as it was, the attempts still
    to come together with those made are exactly the attempts of a run in
    which no subscriber ever answers (nothing is issued twice, nothing is
    dropped), and a pass of the loop is never held back by a request in
    flight.  An answer of any status code, and a connection error, of a
    request in flight can arrive at any moment, and what it does is to add
    its line to the log: the line of the status code, or the line of the
    failure with its message, for the URL of that subscription; the
    subscriptions still to be served, the attempts made, the clock and the
    response of the client are as before.  No other step exists than a
    pass of the loop and such an arrival. *)
Theorem deliveries_independent `{Node} (e : Env) (repoName event : jsstring)
  (payload : JSObject) (c : Response) (s : Sys) :
  steps e repoName event payload (started e repoName c) s ->
  client s = c /\
  attempts (snd (for_of (pending s) (deliver e repoName event payload) (dstate s)))
    = attempts (snd (triggerWebhooks e repoName event payload idle)) /\
  (exists rest,
      attempts (snd (triggerWebhooks e repoName event payload idle))
      = attempts (dstate s) ++ rest) /\
  (pending s = [] ->
   outbox (dstate s) = outbox (snd (triggerWebhooks e repoName event payload idle))) /\
  (forall w ws, pending s = w :: ws ->
   exists s', step e repoName event payload s s' /\ pending s' = ws) /\
  (forall a r (ev : NetEvent),
      In a (attempts (dstate s)) -> att_request a = Some r ->
      step e repoName event payload s
           {| pending := pending s;
              dstate :=
                {| reads := reads (dstate s);
                   log := log (dstate s) ++
                          [match ev with
                           | Responded statusCode =>
                               LogResponded (wh_url (att_webhook a)) statusCode
                           | Errored message =>
                               LogFailed (wh_url (att_webhook a)) message
                           end];
                   attempts := attempts (dstate s) |};
              client := client s |}) /\
  (forall s',
      step e repoName event payload s s' ->
      (exists w ws,
          pending s = w :: ws /\
          s' = {| pending := ws;
                  dstate := snd (deliver e repoName event payload w (dstate s));
                  client := client s |}) \/
      (exists a r ev,
          In a (attempts (dstate s)) /\ att_request a = Some r /\
          s' = {| pending := pending s;
                  dstate :=
                    {| reads := reads (dstate s);
                       log := log (dstate s) ++
                              [match ev with
                               | Responded statusCode =>
                                   LogResponded (wh_url (att_webhook a)) statusCode
                               | Errored message =>
                                   LogFailed (wh_url (att_webhook a)) message
                               end];
                       attempts := attempts (dstate s) |};
                  client := client s |})).
Proof.
  intros Hrun.
  destruct (steps_invariant e repoName event payload c s Hrun) as [Hc Ha].
  split; [exact Hc|]. split; [exact Ha|]. split; [|split; [|split; [|split]]].
  - rewrite <- Ha.
    destruct (for_of_deliver e repoName event payload (pending s) (dstate s))
      as [rest [E _]].
    exists rest. exact E.
  - intros Hp. rewrite Hp in Ha. cbn in Ha. unfold outbox. rewrite Ha. reflexivity.
  - intros w ws Hp. destruct s as [p d cl]. cbn in Hp. subst p.
    eexists. split; [apply step_loop | reflexivity].
  - intros a r ev Hin Hr. destruct s as [p d cl]. cbn [dstate] in Hin.
    destruct (In_nth_error _ _ Hin) as [i Hi]. cbn [pending client dstate].
    destruct ev as [statusCode | message].
    + exact (step_net e repoName event payload i a r (Responded statusCode)
               p d cl Hi Hr).
    + exact (step_net e repoName event payload i a r (Errored message)
               p d cl Hi Hr).
  - intros s' Hstep. destruct Hstep as [w ws d cl | i a r ev ws d cl Hn Hr].
    + left. exists w, ws. split; reflexivity.
    + right. exists a, r, ev. cbn [pending client dstate].
      split; [exact (nth_error_In _ _ Hn)|]. split; [exact Hr|].
      destruct ev; reflexivity.
Qed.

Lemma deliveries_independent_witness :
  exists s,
    steps pushed (js "test-repo.git") (js "push") [(js "ref", js "refs/heads/main")]
          (started pushed (js "test-repo.git")
                   {| status := 200; headers := []; body := [] |}) s /\
    pending s = [] /\
    length (log (dstate s)) = 1%nat /\
    length (outbox (dstate s)) = 2%nat /\
    status (client s) = 200.
Proof.
  assert (R : exists s,
             steps pushed (js "test-repo.git") (js "push")
                   [(js "ref", js "refs/heads/main")]
                   (started pushed (js "test-repo.git")
                            {| status := 200; headers := []; body := [] |}) s /\
             pending s = [] /\
             length (log (dstate s)) = 1%nat /\
             length (outbox (dstate s)) = 2%nat).
  { replace (started pushed (js "test-repo.git")
                     {| status := 200; headers := []; body := [] |})
      with {| pending := [hook 3 "http://a.example/hook" "s" "push" "2026-01-03 10:00:00";
                          hook 2 "https://b.example:8443/in?x=1" "" "push" "2026-01-02 10:00:00";
                          hook 1 "http://c.example/" "" "release" "2026-01-01 10:00:00"];
              dstate := idle;
              client := {| status := 200; headers := []; body := [] |} |}
      by (vm_compute; reflexivity).
    eexists. split.
    - eapply steps_step;
        [eapply steps_step; [eapply steps_step; [eapply steps_step;
          [apply steps_refl|]|]|]|].
      + apply step_loop.
      + eapply (step_net _ _ _ _ 0%nat _ _ (Errored (js "connect ECONNREFUSED"))).
        * vm_compute. reflexivity.
        * reflexivity.
      + apply step_loop.
      + apply step_loop.
    - vm_compute. repeat split. }
  destruct R as [s [Hrun [Hp [Hl Ho]]]].
  exists s. split; [exact Hrun|]. split; [exact Hp|]. split; [exact Hl|].
  split; [exact Ho|].
  destruct (deliveries_independent pushed (js "test-repo.git") (js "push")
              [(js "ref", js "refs/heads/main")]
              {| status := 200; headers := []; body := [] |} s Hrun) as [Hc _].
  rewrite Hc. reflexivity.
Defined.

(** ** Routing *)

Lemma segment_app (s : jsstring) : s = fst (segment s) ++ snd (segment s).
Proof.
  induction s as [|c s IH]; simpl; [reflexivity|].
  destruct (c =? slash); [reflexivity|].
  destruct (segment s) as [seg rest]. simpl in *. rewrite <- IH. reflexivity.
Qed.

Lemma segment_no_slash (s : jsstring) : ~ In slash (fst (segment s)).
Proof.
  induction s as [|c s IH]; simpl; [tauto|].
  destruct (N.eqb_spec c slash) as [E|E]; [simpl; tauto|].
  destruct (segment s) as [seg rest]. simpl in *. intros [F|F]; auto.
Qed.

Lemma endsWith_spec (s p : jsstring) :
  endsWith s p = true <-> exists t, s = t ++ p.
Proof.
  unfold endsWith. rewrite andb_true_iff, Nat.leb_le, str_eqb_eq. split.
  - intros [_ E]. exists (firstn (length s - length p) s).
    rewrite <- E at 2. symmetry. apply firstn_skipn.
  - intros [t ->]. rewrite length_app. split; [lia|].
    replace (length t + length p - length p)%nat with (length t) by lia.
    rewrite skipn_app, skipn_all, Nat.sub_diag. reflexivity.
Qed.

(** What the route pattern of [parsePath] lets through as a repository name:
    a first path segment, hence without [/], made of at least one character
    followed by [.git]; no other character is excluded. *)
Lemma match_repo_name (pathname name : jsstring) (rest : option jsstring) :
  match_repo pathname = Some (name, rest) ->
  ~ In slash name /\
  (exists stem, stem <> [] /\ name = stem ++ js ".git") /\
  pathname = slash :: name ++ match rest with Some r => r | None => [] end.
Proof.
  unfold match_repo. destruct pathname as [|c s]; [discriminate|].
  destruct (N.eqb_spec c slash) as [->|]; [|discriminate].
  pose proof (segment_app s) as Happ. pose proof (segment_no_slash s) as Hns.
  destruct (segment s) as [seg tail]. cbn [fst snd] in *.
  unfold git_segment.
  destruct (endsWith seg (js ".git")) eqn:Ee; [|discriminate].
  destruct (4 <? length seg)%nat eqn:El; [|discriminate]. cbn [andb].
  apply endsWith_spec in Ee. destruct Ee as [stem Es].
  apply Nat.ltb_lt in El.
  assert (Hstem : stem <> []).
  { intros ->. subst seg. cbn in El. lia. }
  destruct tail as [|d tail].
  - intros E. inversion E; subst name rest. rewrite app_nil_r in *.
    repeat split; eauto. congruence.
  - destruct (dot_star tail); [|discriminate].
    intros E. inversion E; subst name rest.
    repeat split; eauto. congruence.
Qed.

Lemma first_route_In (routes : list (option Outcome)) (p : Proc) :
  In p (procs_of (first_route routes)) ->
  exists o, In (Some o) routes /\ In p (procs_of o).
Proof.
  induction routes as [|[o|] routes IH]; cbn [first_route].
  - intros [].
  - intros Hin. exists o. split; [left; reflexivity | exact Hin].
  - intros Hin. destruct (IH Hin) as [o [Ho Hp]].
    exists o. split; [right; exact Ho | exact Hp].
Qed.

Lemma page_route_procs (e : Env) (m : option Page) (g : bool) (o : Outcome) :
  page_route e m g = Some o -> procs_of o = [].
Proof.
  unfold page_route. destruct m as [pg|]; [|discriminate].
  destruct g; [|discriminate].
  destruct (render e pg) as [[|c html]|]; try discriminate.
  intros E. inversion E. reflexivity.
Qed.

Lemma handler_procs `{Node} (e : Env) (name : jsstring) (h : Handled) (p : Proc) :
  (exists service, h = handleInfoRefs e name service) \/
  (exists b, h = handleUploadPack e name b) \/
  (exists b, h = handleReceivePack e name b) ->
  In p (procs h) ->
  fs_existsSync e (getRepoPath e name) = true /\
  In (getRepoPath e name) (argv p).
Proof.
  intros [[service ->] | [[b ->] | [b ->]]];
    unfold handleInfoRefs, handleUploadPack, handleReceivePack;
    (destruct (fs_existsSync e (getRepoPath e name)); cbn [negb]; [|intros []]);
    cbn [procs]; (intros [<- | []]); cbn [argv]; (split; [reflexivity|]).
  - right; right; right; left; reflexivity.
  - right; right; left; reflexivity.
  - right; right; left; reflexivity.
Qed.

(** X1: a protocol handler spawns git only for a name the router extracted
    and whose resolved path exists. *)
Lemma spawn_needs_repository `{Node} (e : Env) (req : Request) (p : Proc) :
  In p (procs_of (server e req)) ->
  exists parsed name,
    parsePath (url req) = Some parsed /\ repo parsed = Some name /\
    fs_existsSync e (getRepoPath e name) = true /\
    In (getRepoPath e name) (argv p).
Proof.
  unfold server.
  destruct (parsePath (url req)) as [parsed|]; [|intros []].
  destruct (api_route req); [intros []|].
  destruct (repo parsed) as [name|] eqn:Er; [|intros []].
  intros Hin. exists parsed, name. split; [reflexivity|]. split; [exact Er|].
  destruct (first_route_In _ _ Hin) as [o [Ho Hp]].
  unfold git_routes in Ho. cbn [In] in Ho.
  destruct Ho as [Ho|[Ho|[Ho|[Ho|[Ho|[Ho|[Ho|[Ho|[]]]]]]]]];
    try (rewrite (page_route_procs _ _ _ _ Ho) in Hp; destruct Hp).
  - destruct (str_eqb (path parsed) (js "/info/refs")); [|discriminate].
    destruct (searchParams_get (query parsed) (js "service")) as [service|];
      [|discriminate].
    destruct (str_eqb service (js "git-upload-pack")
              || str_eqb service (js "git-receive-pack")); [|discriminate].
    inversion Ho; subst o. eapply handler_procs; [|exact Hp]. eauto.
  - destruct (str_eqb (path parsed) (js "/git-upload-pack") && _); [|discriminate].
    inversion Ho; subst o. eapply handler_procs; [|exact Hp]. eauto.
  - destruct (str_eqb (path parsed) (js "/git-receive-pack") && _); [|discriminate].
    inversion Ho; subst o. eapply handler_procs; [|exact Hp]. eauto.
Qed.

(** X2: the status of a request routed to discovery: 200 for a supported
    service on an existing repository, 404 in every other case, whether the
    repository is missing or the service is. *)
Lemma discovery_status `{Node} (e : Env) (req : Request) (parsed : Parsed)
  (name : jsstring) :
  parsePath (url req) = Some parsed -> api_route req = None ->
  repo parsed = Some name -> path parsed = js "/info/refs" ->
  status_of (server e req) =
    Some (match searchParams_get (query parsed) (js "service") with
          | Some service =>
              if (str_eqb service (js "git-upload-pack")
                  || str_eqb service (js "git-receive-pack"))
                 && fs_existsSync e (getRepoPath e name)
              then 200 else 404
          | None => 404
          end).
Proof.
  intros Hp Ha Hr Hpath. unfold server. rewrite Hp, Ha, Hr.
  unfold git_routes. rewrite Hpath.
  change (str_eqb (js "/info/refs") (js "/info/refs")) with true.
  change (str_eqb (js "/info/refs") (js "/git-upload-pack")) with false.
  change (str_eqb (js "/info/refs") (js "/git-receive-pack")) with false.
  change (str_eqb (js "/info/refs") (js "/")) with false.
  change (match_commit (js "/info/refs")) with (@None jsstring).
  change (match_tree (js "/info/refs")) with (@None jsstring).
  change (match_blob (js "/info/refs")) with (@None (jsstring * jsstring)).
  change (match_compare (js "/info/refs")) with (@None (jsstring * jsstring)).
  cbn [andb option_map page_route].
  destruct (searchParams_get (query parsed) (js "service")) as [service|];
    [|reflexivity].
  destruct (str_eqb service (js "git-upload-pack")
            || str_eqb service (js "git-receive-pack")); [|reflexivity].
  cbn [first_route status_of andb]. unfold handleInfoRefs.
  destruct (fs_existsSync e (getRepoPath e name)); reflexivity.
Qed.

Lemma discovery_status_witness :
  status_of (server quiet
               (GET "/gone.git/info/refs?service=git-upload-pack")) = Some 404.
Proof.
  rewrite (discovery_status quiet
             (GET "/gone.git/info/refs?service=git-upload-pack")
             {| repo := Some (js "gone.git"); path := js "/info/refs";
                query := [(js "service", js "git-upload-pack")] |}
             (js "gone.git"));
    vm_compute; reflexivity.
Defined.

(** A POST on [/git-upload-pack] or [/git-receive-pack] under a repository
    name reaches the handler of that name with the request body. *)
Lemma protocol_routes `{Node} (e : Env) (req : Request) (parsed : Parsed)
  (name : jsstring) :
  parsePath (url req) = Some parsed -> api_route req = None ->
  repo parsed = Some name -> method req = js "POST" ->
  (path parsed = js "/git-upload-pack" ->
   server e req = Served (handleUploadPack e name (reqBody req))) /\
  (path parsed = js "/git-receive-pack" ->
   server e req = Served (handleReceivePack e name (reqBody req))).
Proof.
  intros Hp Ha Hr Hm. unfold server. rewrite Hp, Ha, Hr.
  unfold git_routes. rewrite Hm.
  change (str_eqb (js "POST") (js "POST")) with true.
  split; intros ->.
  - change (str_eqb (js "/git-upload-pack") (js "/info/refs")) with false.
    change (str_eqb (js "/git-upload-pack") (js "/git-upload-pack")) with true.
    reflexivity.
  - change (str_eqb (js "/git-receive-pack") (js "/info/refs")) with false.
    change (str_eqb (js "/git-receive-pack") (js "/git-upload-pack")) with false.
    change (str_eqb (js "/git-receive-pack") (js "/git-receive-pack")) with true.
    reflexivity.
Qed.

(** C2 does not hold of the code: discovery on the existing repository
    [test-repo.git] with an unsupported service, or with none, is answered
    by the catch-all 404 and not by 400. *)
Lemma discovery_unsupported_service_is_404 :
  fs_existsSync quiet
    (getRepoPath quiet (js "test-repo.git")) = true /\
  server quiet
    (GET "/test-repo.git/info/refs?service=git-foo") = NotFound /\
  server quiet
    (GET "/test-repo.git/info/refs") = NotFound /\
  status_of NotFound = Some 404.
Proof. vm_compute. repeat split. Qed.

(** C5 does not hold of the code: the name [a..b.git] contains [..] and
    characters outside [A-Za-z0-9_-], the router extracts it all the same
    and, the repository being there, [git upload-pack] is spawned on it. *)
Lemma dotted_name_is_served :
  option_map repo (parsePath (js "/a..b.git/info/refs?service=git-upload-pack"))
    = Some (Some (js "a..b.git")) /\
  status_of (server quiet
               (GET "/a..b.git/info/refs?service=git-upload-pack")) = Some 200 /\
  procs_of (server quiet
              (GET "/a..b.git/info/refs?service=git-upload-pack")) =
    [{| argv := [js "upload-pack"; js "--stateless-rpc"; js "--advertise-refs";
                 js "repos/a..b.git"];
        stdin := [] |}].
Proof. vm_compute. repeat split. Qed.

(** ** Number.prototype.toString *)

Lemma digit_value_char (d : N) : d < 36 -> digit_value (digit_char d) = Some d.
Proof.
  intros Hd. unfold digit_char, digit_value, is_digit.
  destruct (N.ltb_spec d 10).
  - replace ((48 <=? 48 + d) && (48 + d <=? 57)) with true.
    + f_equal; lia.
    + symmetry. apply andb_true_iff. split; apply N.leb_le; lia.
  - replace ((48 <=? 87 + d) && (87 + d <=? 57)) with false.
    + replace ((97 <=? 87 + d) && (87 + d <=? 122)) with true.
      * f_equal; lia.
      * symmetry. apply andb_true_iff. split; apply N.leb_le; lia.
    + symmetry. apply andb_false_iff. right. apply N.leb_gt. lia.
Qed.

Lemma digits_from_S (fuel : nat) (radix n : N) (acc : jsstring) :
  digits_from (S fuel) radix n acc =
  if n <? radix then digit_char n :: acc
  else digits_from fuel radix (n / radix) (digit_char (n mod radix) :: acc).
Proof. reflexivity. Qed.

Lemma digits_from_acc (fuel : nat) (radix n : N) (acc : jsstring) :
  digits_from fuel radix n acc = digits_from fuel radix n [] ++ acc.
Proof.
  revert n acc. induction fuel as [|fuel IH]; intros n acc; cbn [digits_from].
  - reflexivity.
  - destruct (n <? radix); [reflexivity|].
    rewrite (IH _ (_ :: acc)), (IH _ [_]), <- app_assoc. reflexivity.
Qed.

Lemma number_snoc (radix : N) (s : jsstring) (c : N) :
  number radix (s ++ [c]) =
  match number radix s, digit_value c with
  | Some a, Some v => if v <? radix then Some (a * radix + v) else None
  | _, _ => None
  end.
Proof. unfold number. rewrite fold_left_app. reflexivity. Qed.

Lemma pow2_succ (k : nat) : 2 ^ N.of_nat (S k) = 2 * 2 ^ N.of_nat k.
Proof. rewrite Nat2N.inj_succ, N.pow_succ_r'. reflexivity. Qed.

Lemma digits_from_number (radix : N) :
  2 <= radix <= 36 ->
  forall (f : nat) (n : N),
    n < 2 ^ N.of_nat (S f) ->
    number radix (digits_from (S f) radix n []) = Some n.
Proof.
  intros Hr. induction f as [|f IH]; intros n Hn.
  - change (2 ^ N.of_nat 1) with 2 in Hn. cbn [digits_from].
    replace (n <? radix) with true by (symmetry; apply N.ltb_lt; lia).
    unfold number. cbn [fold_left]. rewrite digit_value_char by lia.
    replace (n <? radix) with true by (symmetry; apply N.ltb_lt; lia).
    reflexivity.
  - rewrite digits_from_S. destruct (N.ltb_spec n radix) as [Hlt|Hge].
    + unfold number. cbn [fold_left]. rewrite digit_value_char by lia.
      replace (n <? radix) with true by (symmetry; apply N.ltb_lt; lia).
      reflexivity.
    + rewrite digits_from_acc, number_snoc, IH.
      * rewrite digit_value_char.
        -- replace (n mod radix <? radix) with true.
           ++ f_equal. rewrite N.mul_comm. symmetry. apply N.div_mod. lia.
           ++ symmetry. apply N.ltb_lt. apply N.mod_lt. lia.
        -- apply N.lt_le_trans with radix; [apply N.mod_lt; lia | lia].
      * apply N.Div0.div_lt_upper_bound. rewrite pow2_succ in Hn.
        apply N.lt_le_trans with (2 * 2 ^ N.of_nat (S f)); [exact Hn|].
        apply N.mul_le_mono_r. lia.
Qed.

Lemma log2_bound (n : N) : n < 2 ^ N.of_nat (S (N.to_nat (N.log2 n))).
Proof.
  rewrite Nat2N.inj_succ, N2Nat.id.
  destruct n as [|p]; [reflexivity|]. apply N.log2_spec. reflexivity.
Qed.

(** Reading back what [toString] wrote gives the number. *)
Lemma toString_number (radix n : N) :
  2 <= radix <= 36 -> number radix (toString radix n) = Some n.
Proof.
  intros Hr. unfold toString. apply digits_from_number; [exact Hr|].
  apply log2_bound.
Qed.


Lemma digits_from_length (radix : N) :
  2 <= radix ->
  forall (f : nat) (n : N) (k : nat),
    n < 2 ^ N.of_nat (S f) ->
    (n < radix ^ N.of_nat (S k) ->
     (length (digits_from (S f) radix n []) <= S k)%nat) /\
    (radix ^ N.of_nat (S k) <= n ->
     (S k < length (digits_from (S f) radix n []))%nat) /\
    (1 <= length (digits_from (S f) radix n []))%nat.
Proof.
  intros Hr. induction f as [|f IH]; intros n k Hn.
  - change (2 ^ N.of_nat 1) with 2 in Hn. cbn [digits_from].
    replace (n <? radix) with true by (symmetry; apply N.ltb_lt; lia).
    cbn [length]. repeat split; try lia.
    intros Hk. exfalso.
    assert (radix ^ 1 <= radix ^ N.of_nat (S k))
      by (apply N.pow_le_mono_r; lia).
    rewrite N.pow_1_r in *. lia.
  - rewrite digits_from_S. destruct (N.ltb_spec n radix) as [Hlt|Hge].
    + cbn [length]. repeat split; try lia.
      intros Hk. exfalso.
      assert (radix ^ 1 <= radix ^ N.of_nat (S k))
        by (apply N.pow_le_mono_r; lia).
      rewrite N.pow_1_r in *. lia.
    + rewrite digits_from_acc, length_app. cbn [length].
      assert (Hq : n / radix < 2 ^ N.of_nat (S f)).
      { apply N.Div0.div_lt_upper_bound. rewrite pow2_succ in Hn.
        apply N.lt_le_trans with (2 * 2 ^ N.of_nat (S f)); [exact Hn|].
        apply N.mul_le_mono_r. lia. }
      destruct k as [|k].
      * change (N.of_nat 1) with 1. rewrite N.pow_1_r.
        destruct (IH (n / radix) 0%nat Hq) as [_ [_ H1]].
        repeat split; lia.
      * destruct (IH (n / radix) k Hq) as [Hle [Hgt H1]].
        rewrite (Nat2N.inj_succ (S k)), N.pow_succ_r'.
        repeat split; try lia.
        -- intros Hk. assert (n / radix < radix ^ N.of_nat (S k)).
           { apply N.Div0.div_lt_upper_bound. exact Hk. }
           specialize (Hle H). lia.
        -- intros Hk. assert (radix ^ N.of_nat (S k) <= n / radix).
           { apply N.div_le_lower_bound; [lia | exact Hk]. }
           specialize (Hgt H). lia.
Qed.

(** ** Packet lines of any length *)

Lemma number_zeros (radix : N) (k : nat) (s : jsstring) :
  0 < radix -> number radix (repeat 48 k ++ s) = number radix s.
Proof.
  intros Hr. unfold number. rewrite fold_left_app. f_equal.
  induction k as [|k IH]; [reflexivity|].
  replace (repeat 48 (S k)) with (repeat 48 k ++ [48]) by (symmetry; apply (repeat_cons k 48)).
  rewrite fold_left_app, IH. cbn.
  replace (0 <? radix) with true by (symmetry; apply N.ltb_lt; exact Hr).
  reflexivity.
Qed.

(** X3: [packetLine] neither rejects nor truncates a line: the result is the
    line behind the hexadecimal digits of its length plus 4, on four
    characters as long as that number is below 65536 and on more beyond. *)
Theorem packetLine_any_length (L : jsstring) :
  exists prefix,
    packetLine L = prefix ++ L /\
    number 16 prefix = Some (N.of_nat (length L) + 4) /\
    (4 <= length prefix)%nat /\
    (length prefix = 4%nat <-> N.of_nat (length L) + 4 < 65536).
Proof.
  set (m := N.of_nat (length L) + 4).
  exists (padStart (toString 16 m) 4 48).
  split; [reflexivity|]. split.
  - unfold padStart. rewrite number_zeros by lia. apply toString_number. lia.
  - unfold padStart. rewrite length_app, repeat_length.
    destruct (digits_from_length 16 ltac:(lia) (N.to_nat (N.log2 m)) m 3%nat
                (log2_bound m)) as [Hle [Hgt H1]].
    change (16 ^ N.of_nat 4) with 65536 in *. fold (toString 16 m) in *.
    split; [lia|]. split.
    + intros Hlen. destruct (N.lt_ge_cases m 65536) as [Hm|Hm]; [exact Hm|].
      specialize (Hgt Hm). lia.
    + intros Hm. specialize (Hle Hm). lia.
Qed.

(** ** More on the dispatcher *)

Section Loop.
Context `{Node}.
Variables (e : Env) (repoName event : jsstring) (payload : JSObject).

Lemma for_of_invariant (I : DState -> Prop) :
  (forall w s, I s -> I (snd (deliver e repoName event payload w s))) ->
  forall l s, I s -> I (snd (for_of l (deliver e repoName event payload) s)).
Proof.
  intros Hstep. induction l as [|w l IH]; intros s Hs; [exact Hs|].
  rewrite for_of_cons. apply IH, Hstep, Hs.
Qed.

Lemma triggerWebhooks_invariant (I : DState -> Prop) :
  (forall w s, I s -> I (snd (deliver e repoName event payload w s))) ->
  I idle -> I (snd (triggerWebhooks e repoName event payload idle)).
Proof. intros Hstep H0. unfold triggerWebhooks. apply for_of_invariant; assumption. Qed.

(** The ways a pass of the loop can go: the filter skips the subscription,
    the [try] block throws, or a request is issued. *)
Lemma deliver_cases (w : Webhook) (s : DState) :
  let s' := snd (deliver e repoName event payload w s) in
  (includes (wh_events w) event = false /\ s' = s) \/
  (includes (wh_events w) event = true /\ thrown event w /\
   ((parses w = false /\ reads s' = S (reads s)) \/
    (parses w = true /\ reads s' = S (S (reads s)))) /\
   log s' = log s ++ [LogError (wh_url w)] /\
   exists a, attempts s' = attempts s ++ [a] /\
             att_webhook a = w /\ att_request a = None) \/
  (includes (wh_events w) event = true /\ parses w = true /\
   reads s' = S (S (reads s)) /\
   log s' = log s /\
   exists a r, attempts s' = attempts s ++ [a] /\
               att_webhook a = w /\ att_request a = Some r /\
               header delivery_header r = Some (toString 10 (clock e (S (reads s)))) /\
               header (js "Content-Length") r =
                 Some (toString 10 (N.of_nat (length (rq_body r)))) /\
               request_throws (rq_https r) (options_of r) = false).
Proof.
  unfold deliver, parses, thrown. cbn zeta.
  destruct (includes (wh_events w) event); cbn [negb].
  - right. unfold bind, now, console, attempt. cbn [fst snd].
    destruct (URL_new (wh_url w) None) as [u|].
    + match goal with
      | |- context [request_throws ?h ?o] => destruct (request_throws h o) eqn:ET
      end.
      * left. cbn [fst snd reads log attempts].
        split; [reflexivity|]. split.
        { right. exists u. eexists. split; [reflexivity|]. split; [exact ET|].
          cbn [opt_method opt_hostname opt_port opt_path opt_headers].
          destruct (wh_secret w); repeat split; reflexivity. }
        split; [right; split; reflexivity|]. split; [reflexivity|].
        eexists. split; [reflexivity|]. split; reflexivity.
      * right. cbn [fst snd reads log attempts]. repeat split.
        eexists. eexists. split; [reflexivity|]. split; [reflexivity|].
        split; [reflexivity|].
        cbn [att_request]. unfold header.
        cbn [rq_headers rq_body rq_https options_of opt_headers].
        split; [destruct (wh_secret w); reflexivity|].
        split; [destruct (wh_secret w); reflexivity|].
        exact ET.
    + left. cbn [reads log attempts]. split; [reflexivity|].
      split; [left; reflexivity|]. split; [left; split; reflexivity|].
      split; [reflexivity|].
      eexists. split; [reflexivity|]. split; reflexivity.
  - left. split; reflexivity.
Qed.
End Loop.

(** X4: the [Content-Length] header of every request the dispatcher issues
    is the decimal count of the bytes written as its body. *)
Theorem content_length_is_body_length `{Node} (e : Env)
  (repoName event : jsstring) (payload : JSObject) (a : Attempt)
  (r : ClientRequest) :
  In a (attempts (snd (triggerWebhooks e repoName event payload idle))) ->
  att_request a = Some r ->
  exists digits,
    header (js "Content-Length") r = Some digits /\
    number 10 digits = Some (N.of_nat (length (rq_body r))).
Proof.
  intros Hin Hr.
  assert (Hall : Forall (fun a => forall r, att_request a = Some r ->
                   header (js "Content-Length") r =
                     Some (toString 10 (N.of_nat (length (rq_body r)))))
                 (attempts (snd (triggerWebhooks e repoName event payload idle)))).
  { apply (triggerWebhooks_invariant e repoName event payload
             (fun s => Forall (fun a => forall r, att_request a = Some r ->
                   header (js "Content-Length") r =
                     Some (toString 10 (N.of_nat (length (rq_body r)))))
                 (attempts s))); [|constructor].
    intros w s Hs.
    destruct (deliver_cases e repoName event payload w s)
      as [[_ ->] | [[_ [_ [_ [_ [b [-> [_ Hb]]]]]]]
                   | [_ [_ [_ [_ [b [q [-> [_ [Hb [_ [Hq _]]]]]]]]]]]]];
      [exact Hs | |]; apply Forall_app; (split; [exact Hs|]);
      constructor; try constructor; intros q' Hq'; congruence. }
  rewrite Forall_forall in Hall. specialize (Hall a Hin r Hr).
  eexists. split; [exact Hall|]. apply toString_number. lia.
Qed.

Lemma content_length_is_body_length_witness :
  exists a r,
    In a (attempts (snd (triggerWebhooks pushed (js "test-repo.git") (js "push")
                           [(js "ref", js "refs/heads/main")] idle))) /\
    att_request a = Some r /\
    exists digits,
      header (js "Content-Length") r = Some digits /\
      number 10 digits = Some (N.of_nat (length (rq_body r))).
Proof.
  destruct (attempts (snd (triggerWebhooks pushed (js "test-repo.git") (js "push")
                             [(js "ref", js "refs/heads/main")] idle)))
    as [|a l] eqn:E.
  - vm_compute in E. discriminate E.
  - destruct (att_request a) as [r|] eqn:Er.
    + exists a, r. split; [left; reflexivity|]. split; [exact Er|].
      apply (content_length_is_body_length pushed (js "test-repo.git") (js "push")
               [(js "ref", js "refs/heads/main")] a r).
      * rewrite E. left. reflexivity.
      * exact Er.
    + exfalso. vm_compute in E. injection E as Ea _. subst a.
      discriminate Er.
Defined.



(** On a platform whose parser takes the URL [x:a b], [proto.request]
    refuses the path with its space: the pass logs an error and sends
    nothing, and the subscription after it is served. *)
Example refused_path_is_logged :
  let s := snd (@triggerWebhooks opaque_node
                  (demo_env [hook 1 "http://a.example/hook" "" "push" "2026-01-01 10:00:00";
                             hook 2 "x:a b" "" "push" "2026-01-02 10:00:00"]
                            (Some 0%Z) ticking)
                  (js "test-repo.git") (js "push")
                  [(js "ref", js "refs/heads/main")] idle) in
  map sent (attempts s) = [false; true] /\
  log s = [LogError (js "x:a b")] /\
  map rq_hostname (outbox s) = [js "a.example"].
Proof. vm_compute. repeat split. Qed.

(** ** Delivery identifiers under a clock that advances *)






(** ** The order of the subscriptions *)

Lemma str_leb_total (a b : jsstring) : str_leb a b = false -> str_leb b a = true.
Proof.
  revert b. induction a as [|x a IH]; intros [|y b]; cbn [str_leb];
    try discriminate; try reflexivity.
  rewrite orb_false_iff, andb_false_iff, N.ltb_ge.
  intros [Hxy Hc]. apply orb_true_iff.
  destruct (N.eq_dec x y) as [->|Hne].
  - right. rewrite N.eqb_refl. cbn [andb].
    destruct Hc as [Hc|Hc]; [rewrite N.eqb_refl in Hc; discriminate | apply IH; exact Hc].
  - left. apply N.ltb_lt. lia.
Qed.

Lemma insert_desc_sorted (w : Webhook) (l : list Webhook) :
  Sorted not_older l -> Sorted not_older (insert_desc w l).
Proof.
  induction 1 as [|v l Hs IH Hv]; cbn [insert_desc].
  - constructor; constructor.
  - destruct (str_leb (wh_created_at v) (wh_created_at w)) eqn:E.
    + constructor; [constructor; assumption|]. constructor. exact E.
    + constructor; [exact IH|].
      apply str_leb_total in E.
      destruct l as [|u l]; cbn [insert_desc].
      * constructor. exact E.
      * inversion Hv; subst.
        destruct (str_leb (wh_created_at u) (wh_created_at w));
          constructor; assumption.
Qed.

(** X7: [listWebhooks] returns the rows stored for the repository, each one
    once and no other, the most recently created first. *)
Theorem listWebhooks_sorted (table : list Webhook) (repoName : jsstring) :
  Sorted not_older (listWebhooks table repoName) /\
  Permutation (listWebhooks table repoName)
              (filter (fun w => str_eqb (wh_repo_name w) repoName) table) /\
  (forall w, In w (listWebhooks table repoName) <->
             In w table /\ wh_repo_name w = repoName).
Proof.
  unfold listWebhooks.
  set (rows := filter (fun w => str_eqb (wh_repo_name w) repoName) table).
  split; [|split].
  - unfold order_by_created_at_desc.
    induction rows as [|w rows IH]; cbn [fold_right]; [constructor|].
    apply insert_desc_sorted. exact IH.
  - apply order_by_perm.
  - intros w. split.
    + intros Hin. apply (Permutation_in _ (order_by_perm rows)) in Hin.
      subst rows. rewrite filter_In, str_eqb_eq in Hin. exact Hin.
    + intros Hin. apply (Permutation_in _ (Permutation_sym (order_by_perm rows))).
      subst rows. rewrite filter_In, str_eqb_eq. exact Hin.
Qed.

(** ** More on routing *)

Lemma segment_spec (name rest : jsstring) :
  ~ In slash name ->
  rest = [] \/ (exists tail, rest = slash :: tail) ->
  segment (name ++ rest) = (name, rest).
Proof.
  intros Hns Hrest. induction name as [|c name IH]; cbn [app].
  - destruct Hrest as [-> | [tail ->]]; [reflexivity|].
    cbn [segment]. rewrite N.eqb_refl. reflexivity.
  - cbn [segment]. destruct (N.eqb_spec c slash) as [->|Hc].
    + exfalso. apply Hns. left. reflexivity.
    + rewrite IH; [reflexivity|]. intros Hin. apply Hns. right. exact Hin.
Qed.

Lemma segment_rest (s : jsstring) :
  snd (segment s) = [] \/ exists tail, snd (segment s) = slash :: tail.
Proof.
  induction s as [|c s IH]; cbn [segment]; [left; reflexivity|].
  destruct (N.eqb_spec c slash) as [->|Hc].
  - right. exists s. reflexivity.
  - destruct (segment s) as [seg rest]. exact IH.
Qed.

Lemma git_segment_spec (seg : jsstring) :
  git_segment seg = true <-> git_name seg.
Proof.
  unfold git_segment, git_name.
  rewrite andb_true_iff, endsWith_spec, Nat.ltb_lt. split.
  - intros [[stem ->] Hlen]. exists stem. split; [|reflexivity].
    intros ->. cbn in Hlen. lia.
  - intros [stem [Hne ->]]. split; [exists stem; reflexivity|].
    rewrite length_app. destruct stem; [contradiction|]. cbn. lia.
Qed.

Lemma match_repo_spec (pathname name : jsstring) (rest : option jsstring) :
  match_repo pathname = Some (name, rest) <->
  ~ In slash name /\ git_name name /\
  ((rest = None /\ pathname = slash :: name) \/
   (exists tail, rest = Some (slash :: tail) /\ dot_star tail = true /\
                 pathname = slash :: name ++ slash :: tail)).
Proof.
  split.
  - unfold match_repo. destruct pathname as [|c s]; [discriminate|].
    destruct (N.eqb_spec c slash) as [->|]; [|discriminate].
    pose proof (segment_app s) as Happ. pose proof (segment_no_slash s) as Hns.
    pose proof (segment_rest s) as Hrest.
    destruct (segment s) as [seg rest0]. cbn [fst snd] in *.
    destruct (git_segment seg) eqn:Eg; [|discriminate].
    apply git_segment_spec in Eg.
    destruct Hrest as [-> | [tail ->]].
    + intros E. inversion E; subst name rest. rewrite app_nil_r in Happ.
      subst s. auto.
    + destruct (dot_star tail) eqn:Ed; [|discriminate].
      intros E. inversion E; subst name rest.
      split; [exact Hns|]. split; [exact Eg|]. right.
      exists tail. subst s. auto.
  - intros [Hns [Hg Hcase]]. apply git_segment_spec in Hg.
    destruct Hcase as [[-> ->] | [tail [-> [Hd ->]]]]; unfold match_repo;
      rewrite N.eqb_refl.
    + rewrite <- (app_nil_r name) at 1.
      rewrite (segment_spec name []) by auto. rewrite Hg. reflexivity.
    + rewrite (segment_spec name (slash :: tail)) by eauto.
      rewrite Hg, Hd. reflexivity.
Qed.

(** X8: [parsePath] takes as repository the whole first segment of the path
    when it is at least one character followed by [.git] (and no line
    terminator follows in the path), and as path what comes after that
    segment, or [/] when nothing does; otherwise it yields no repository and
    hands the path over unchanged. *)
Theorem parsePath_spec `{Node} (url : jsstring) (u : URL) :
  URL_new url (Some (js "http://localhost")) = Some u ->
  exists parsed,
    parsePath url = Some parsed /\
    query parsed = searchParams u /\
    (forall name,
        repo parsed = Some name <->
        ~ In slash name /\ git_name name /\
        (pathname u = slash :: name \/
         exists tail, pathname u = slash :: name ++ slash :: tail /\
                      dot_star tail = true)) /\
    (forall name,
        repo parsed = Some name ->
        (pathname u = slash :: name /\ path parsed = js "/") \/
        (pathname u = slash :: name ++ path parsed /\
         startsWith (path parsed) (js "/") = true)) /\
    (repo parsed = None -> path parsed = pathname u).
Proof.
  intros Hu. unfold parsePath. rewrite Hu.
  destruct (match_repo (pathname u)) as [[m1 m2]|] eqn:Em.
  - eexists. split; [reflexivity|]. cbn [repo path query].
    split; [reflexivity|].
    pose proof (proj1 (match_repo_spec _ _ _) Em) as [Hns [Hg Hcase]].
    split; [|split; [|discriminate]].
    + intros name. split.
      * intros E. inversion E; subst name. split; [exact Hns|]. split; [exact Hg|].
        destruct Hcase as [[_ Hp] | [tail [_ [Hd Hp]]]]; [left; exact Hp|].
        right. exists tail. auto.
      * intros [Hns' [Hg' Hcase']].
        assert (Em' : exists r, match_repo (pathname u) = Some (name, r)).
        { destruct Hcase' as [Hp | [tail [Hp Hd]]].
          - exists None. apply match_repo_spec. auto.
          - exists (Some (slash :: tail)). apply match_repo_spec.
            split; [exact Hns'|]. split; [exact Hg'|]. right. exists tail. auto. }
        destruct Em' as [r Er]. rewrite Em in Er. congruence.
    + intros name E. inversion E; subst name.
      destruct Hcase as [[-> Hp] | [tail [-> [_ Hp]]]]; [left; auto|].
      right. split; [exact Hp|]. reflexivity.
  - eexists. split; [reflexivity|]. cbn [repo path query].
    split; [reflexivity|]. split; [|split; [discriminate | reflexivity]].
    intros name. split; [discriminate|].
    intros [Hns [Hg Hcase]]. exfalso.
    assert (Em' : exists r, match_repo (pathname u) = Some (name, r)).
    { destruct Hcase as [Hp | [tail [Hp Hd]]].
      - exists None. apply match_repo_spec. auto.
      - exists (Some (slash :: tail)). apply match_repo_spec.
        split; [exact Hns|]. split; [exact Hg|]. right. exists tail. auto. }
    destruct Em' as [r Er]. congruence.
Qed.

Lemma parsePath_spec_witness :
  exists parsed,
    parsePath (js "/test-repo.git/info/refs?service=git-upload-pack") = Some parsed /\
    repo parsed = Some (js "test-repo.git") /\
    path parsed = js "/info/refs".
Proof.
  destruct (parsePath_spec
              (js "/test-repo.git/info/refs?service=git-upload-pack")
              {| protocol := js "http:"; hostname := js "localhost"; port := [];
                 pathname := js "/test-repo.git/info/refs";
                 search := js "?service=git-upload-pack";
                 searchParams := [(js "service", js "git-upload-pack")] |})
    as [parsed [Hp _]].
  - vm_compute. reflexivity.
  - exists parsed. split; [exact Hp|].
    vm_compute in Hp. injection Hp as <-. split; reflexivity.
Defined.

(** X9: the routes of the registry and of the webhook storage leave alone
    every request whose target is neither [/] nor starts with
    [/api/repos]: such a request is decided by the parsed path alone. *)
Theorem api_route_none (req : Request) :
  url req <> js "/" ->
  startsWith (url req) (js "/api/repos") = false ->
  api_route req = None.
Proof.
  intros Hroot Hapi. unfold api_route.
  assert (E1 : str_eqb (url req) (js "/") = false).
  { destruct (str_eqb (url req) (js "/")) eqn:E; [|reflexivity].
    apply str_eqb_eq in E. contradiction. }
  assert (E2 : str_eqb (url req) (js "/api/repos") = false).
  { destruct (str_eqb (url req) (js "/api/repos")) eqn:E; [|reflexivity].
    apply str_eqb_eq in E. rewrite E in Hapi. discriminate Hapi. }
  assert (E3 : startsWith (url req) (js "/api/repos/") = false).
  { destruct (startsWith (url req) (js "/api/repos/")) eqn:E; [|reflexivity].
    apply startsWith_spec in E. destruct E as [t E].
    assert (startsWith (url req) (js "/api/repos") = true).
    { apply startsWith_spec. exists (slash :: t). rewrite E. reflexivity. }
    congruence. }
  rewrite E1, E2. cbn [andb].
  unfold match_webhook, strip. rewrite E3. cbn [andb]. reflexivity.
Qed.

Lemma api_route_none_witness :
  api_route (GET "/test-repo.git/info/refs?service=git-upload-pack") = None.
Proof.
  apply api_route_none.
  - vm_compute. intros E. discriminate E.
  - vm_compute. reflexivity.
Defined.

Lemma first_route_cases (routes : list (option Outcome)) :
  first_route routes = NotFound \/ In (Some (first_route routes)) routes.
Proof.
  induction routes as [|[o|] routes IH]; cbn [first_route].
  - left. reflexivity.
  - right. left. reflexivity.
  - destruct IH as [IH|IH]; [left; exact IH | right; right; exact IH].
Qed.

Lemma page_route_not_served (e : Env) (m : option Page) (g : bool) (h : Handled) :
  page_route e m g <> Some (Served h).
Proof.
  unfold page_route. destruct m as [pg|]; [|discriminate].
  destruct g; [|discriminate].
  destruct (render e pg) as [[|c html]|]; discriminate.
Qed.

(** The routes that end in a protocol handler, read off [server]. *)
Lemma server_served `{Node} (e : Env) (req : Request) (h : Handled) :
  server e req = Served h ->
  exists parsed name,
    parsePath (url req) = Some parsed /\ api_route req = None /\
    repo parsed = Some name /\
    ((path parsed = js "/info/refs" /\
      exists service,
        searchParams_get (query parsed) (js "service") = Some service /\
        (service = js "git-upload-pack" \/ service = js "git-receive-pack") /\
        h = handleInfoRefs e name service) \/
     (path parsed = js "/git-upload-pack" /\ method req = js "POST" /\
      h = handleUploadPack e name (reqBody req)) \/
     (path parsed = js "/git-receive-pack" /\ method req = js "POST" /\
      h = handleReceivePack e name (reqBody req))).
Proof.
  unfold server.
  destruct (parsePath (url req)) as [parsed|]; [|discriminate].
  destruct (api_route req); [discriminate|].
  destruct (repo parsed) as [name|] eqn:Er; [|discriminate].
  intros Hs. exists parsed, name.
  split; [reflexivity|]. split; [reflexivity|]. split; [exact Er|].
  destruct (first_route_cases (git_routes e req name (path parsed) (query parsed)))
    as [Hn|Hin]; [congruence|].
  rewrite Hs in Hin. unfold git_routes in Hin. cbn [In] in Hin.
  destruct Hin as [Ho|[Ho|[Ho|[Ho|[Ho|[Ho|[Ho|[Ho|[]]]]]]]]];
    try (exfalso; exact (page_route_not_served _ _ _ _ Ho)).
  - left.
    destruct (str_eqb (path parsed) (js "/info/refs")) eqn:Ep; [|discriminate].
    apply str_eqb_eq in Ep. split; [exact Ep|].
    destruct (searchParams_get (query parsed) (js "service")) as [service|];
      [|discriminate].
    destruct (str_eqb service (js "git-upload-pack")
              || str_eqb service (js "git-receive-pack")) eqn:Es; [|discriminate].
    exists service. split; [reflexivity|]. split.
    + apply orb_true_iff in Es. rewrite !str_eqb_eq in Es. exact Es.
    + congruence.
  - right. left.
    destruct (str_eqb (path parsed) (js "/git-upload-pack")) eqn:Ep; [|discriminate].
    destruct (str_eqb (method req) (js "POST")) eqn:Em; [|discriminate].
    apply str_eqb_eq in Ep, Em. cbn [andb] in Ho. repeat split; congruence.
  - right. right.
    destruct (str_eqb (path parsed) (js "/git-receive-pack")) eqn:Ep; [|discriminate].
    destruct (str_eqb (method req) (js "POST")) eqn:Em; [|discriminate].
    apply str_eqb_eq in Ep, Em. cbn [andb] in Ho. repeat split; congruence.
Qed.

(** X10: a request is answered by a protocol handler in three cases only: on
    the path [/info/refs] with one of the two supported services, by
    [handleInfoRefs], whatever the method; on [/git-upload-pack] and on
    [/git-receive-pack] with the method POST, by the handler of that name on
    the request body; always for the repository name taken from the path. *)
Theorem served_cases `{Node} (e : Env) (req : Request) (h : Handled) :
  server e req = Served h ->
  exists parsed name,
    parsePath (url req) = Some parsed /\ api_route req = None /\
    repo parsed = Some name /\
    ((path parsed = js "/info/refs" /\
      exists service,
        searchParams_get (query parsed) (js "service") = Some service /\
        (service = js "git-upload-pack" \/ service = js "git-receive-pack") /\
        h = handleInfoRefs e name service) \/
     (path parsed = js "/git-upload-pack" /\ method req = js "POST" /\
      h = handleUploadPack e name (reqBody req)) \/
     (path parsed = js "/git-receive-pack" /\ method req = js "POST" /\
      h = handleReceivePack e name (reqBody req))).
Proof. apply server_served. Qed.

Lemma served_cases_witness :
  exists parsed name,
    parsePath (url (POST "/test-repo.git/git-upload-pack" (utf8 (js "0000"))))
      = Some parsed /\
    repo parsed = Some name /\
    name = js "test-repo.git".
Proof.
  destruct (served_cases quiet (POST "/test-repo.git/git-upload-pack" (utf8 (js "0000")))
              (handleUploadPack quiet (js "test-repo.git") (utf8 (js "0000"))))
    as [parsed [name [Hp [_ [Hr _]]]]].
  - vm_compute. reflexivity.
  - exists parsed, name. split; [exact Hp|]. split; [exact Hr|].
    vm_compute in Hp. injection Hp as <-. cbn in Hr. injection Hr as <-.
    reflexivity.
Defined.

(** X11: the dispatcher runs for no other request than a POST on
    [/git-receive-pack] of a repository that exists and whose
    [git receive-pack] exits with status 0; discovery, upload-pack and the
    browsing routes never set it off. *)
Theorem webhooks_only_after_push `{Node} (e : Env) (req : Request) (a : Attempt) :
  In a (attempts (dispatch_of (server e req))) ->
  exists parsed name,
    parsePath (url req) = Some parsed /\ repo parsed = Some name /\
    path parsed = js "/git-receive-pack" /\ method req = js "POST" /\
    fs_existsSync e (getRepoPath e name) = true /\
    exit_code (git e [js "receive-pack"; js "--stateless-rpc"; getRepoPath e name]
                     (reqBody req)) = Some 0%Z /\
    includes (wh_events (att_webhook a)) (js "push") = true.
Proof.
  destruct (server e req) as [| |h| |] eqn:Es; try (intros []).
  cbn [dispatch_of]. intros Hin.
  destruct (server_served e req h Es)
    as [parsed [name [Hp [_ [Hr [[_ [service [_ [_ ->]]]] | [[_ [_ ->]] | [Hpath [Hm ->]]]]]]]]].
  - exfalso. revert Hin. unfold handleInfoRefs.
    destruct (fs_existsSync e (getRepoPath e name)); cbn; intros [].
  - exfalso. revert Hin. unfold handleUploadPack.
    destruct (fs_existsSync e (getRepoPath e name)); cbn; intros [].
  - exists parsed, name. repeat (split; [assumption|]).
    revert Hin. unfold handleReceivePack.
    destruct (fs_existsSync e (getRepoPath e name)); cbn [negb]; [|intros []].
    cbn [dispatch].
    destruct (exit_code _) as [[|p|p]|]; cbn [on_close]; try (intros []).
    intros Hin. split; [reflexivity|]. split; [reflexivity|].
    destruct (triggerWebhooks_attempts e name (js "push")
                [(js "ref", js "refs/heads/main")]) as [_ Hf].
    rewrite Forall_forall in Hf. destruct (Hf a Hin) as [Hi _]. exact Hi.
Qed.

Lemma webhooks_only_after_push_witness :
  exists a,
    In a (attempts (dispatch_of (server pushed
                                   (POST "/test-repo.git/git-receive-pack" [])))) /\
    includes (wh_events (att_webhook a)) (js "push") = true.
Proof.
  destruct (attempts (dispatch_of (server pushed
                                     (POST "/test-repo.git/git-receive-pack" []))))
    as [|a l] eqn:E.
  - vm_compute in E. discriminate E.
  - exists a. split; [left; reflexivity|].
    destruct (webhooks_only_after_push pushed
                (POST "/test-repo.git/git-receive-pack" []) a)
      as [parsed [name [_ [_ [_ [_ [_ [_ Hi]]]]]]]].
    + rewrite E. left. reflexivity.
    + exact Hi.
Defined.

(** X12: a request that is not a POST never spawns git in RPC mode: the only
    git process it can start is the ref advertisement, which is given no
    input. *)
Theorem rpc_needs_post `{Node} (e : Env) (req : Request) (p : Proc) :
  method req <> js "POST" ->
  In p (procs_of (server e req)) ->
  In (js "--advertise-refs") (argv p) /\ stdin p = [] /\
  exists service,
    (service = js "git-upload-pack" \/ service = js "git-receive-pack") /\
    hd_error (argv p) = Some (replace service (js "git-") []).
Proof.
  intros Hm.
  destruct (server e req) as [| |h| |] eqn:Es; try (intros []).
  cbn [procs_of]. intros Hin.
  destruct (server_served e req h Es)
    as [parsed [name [_ [_ [_ [[_ [service [_ [Hs ->]]]] | [[_ [Hp _]] | [_ [Hp _]]]]]]]]];
    try contradiction.
  revert Hin. unfold handleInfoRefs.
  destruct (fs_existsSync e (getRepoPath e name)); cbn [negb]; [|intros []].
  cbn [procs]. intros [<- | []]. cbn [argv stdin].
  split; [right; right; left; reflexivity|]. split; [reflexivity|].
  exists service. split; [exact Hs | reflexivity].
Qed.

Lemma rpc_needs_post_witness :
  exists p,
    In p (procs_of (server quiet
                      (GET "/test-repo.git/info/refs?service=git-receive-pack"))) /\
    hd_error (argv p) = Some (js "receive-pack") /\ stdin p = [].
Proof.
  destruct (procs_of (server quiet
                        (GET "/test-repo.git/info/refs?service=git-receive-pack")))
    as [|p l] eqn:E.
  - vm_compute in E. discriminate E.
  - exists p. split; [left; reflexivity|].
    destruct (rpc_needs_post quiet
                (GET "/test-repo.git/info/refs?service=git-receive-pack") p)
      as [_ [Hstdin _]].
    + vm_compute. intros F. discriminate F.
    + rewrite E. left. reflexivity.
    + split; [|exact Hstdin].
      vm_compute in E. injection E as <- _. reflexivity.
Defined.

Lemma spawn_needs_repository_witness :
  exists p,
    In p (procs_of (server quiet
                      (GET "/test-repo.git/info/refs?service=git-upload-pack"))) /\
    In (js "repos/test-repo.git") (argv p).
Proof.
  destruct (procs_of (server quiet
                        (GET "/test-repo.git/info/refs?service=git-upload-pack")))
    as [|p l] eqn:E.
  - vm_compute in E. discriminate E.
  - exists p. split; [left; reflexivity|].
    destruct (spawn_needs_repository quiet
                (GET "/test-repo.git/info/refs?service=git-upload-pack") p)
      as [parsed [name [Hp [Hr [_ Hin]]]]].
    + rewrite E. left. reflexivity.
    + vm_compute in Hp. injection Hp as <-. cbn in Hr. injection Hr as <-.
      exact Hin.
Defined.

(** ** escapeHtml *)

Lemma replace_each_app (c : N) (rep a b : jsstring) :
  replace_each c rep (a ++ b) = replace_each c rep a ++ replace_each c rep b.
Proof. unfold replace_each. apply flat_map_app. Qed.

Lemma escapeHtml_app (a b : jsstring) :
  escapeHtml (a ++ b) = escapeHtml a ++ escapeHtml b.
Proof. unfold escapeHtml. rewrite !replace_each_app. reflexivity. Qed.

Lemma entity_cases (c : N) :
  (c = 38 /\ entity c = js "&amp;") \/ (c = 60 /\ entity c = js "&lt;") \/
  (c = 62 /\ entity c = js "&gt;") \/ (c = 34 /\ entity c = js "&quot;") \/
  (c = 39 /\ entity c = js "&#039;") \/
  (special c = false /\ entity c = [c]).
Proof.
  unfold entity, special.
  destruct (N.eqb_spec c 38); [left; auto|].
  destruct (N.eqb_spec c 60); [right; left; auto|].
  destruct (N.eqb_spec c 62); [right; right; left; auto|].
  destruct (N.eqb_spec c 34); [right; right; right; left; auto|].
  destruct (N.eqb_spec c 39); [right; right; right; right; left; auto|].
  right; right; right; right; right. auto.
Qed.

Lemma escapeHtml_one (c : N) : escapeHtml [c] = entity c.
Proof.
  destruct (entity_cases c) as [[-> E]|[[-> E]|[[-> E]|[[-> E]|[[-> E]|[Hs E]]]]]];
    rewrite E; try reflexivity.
  unfold special in Hs. rewrite !orb_false_iff in Hs.
  destruct Hs as [[[[H1 H2] H3] H4] H5].
  unfold escapeHtml, replace_each. cbn [flat_map app].
  rewrite H1. cbn [flat_map app]. rewrite H2. cbn [flat_map app].
  rewrite H3. cbn [flat_map app]. rewrite H4. cbn [flat_map app].
  rewrite H5. reflexivity.
Qed.

Lemma escapeHtml_flat_map (text : jsstring) :
  escapeHtml text = flat_map entity text.
Proof.
  induction text as [|c text IH]; [reflexivity|].
  change (c :: text) with ([c] ++ text).
  rewrite escapeHtml_app, escapeHtml_one, IH. reflexivity.
Qed.

(** X13: [escapeHtml] rewrites each character on its own and once: the text
    comes out as the concatenation of [&amp;], [&lt;], [&gt;], [&quot;],
    [&#039;] for the five special characters and of every other character
    unchanged; the ampersands that the later passes write are not escaped
    again, and escaping commutes with concatenation. *)
Theorem escapeHtml_by_character (text : jsstring) :
  escapeHtml text = flat_map entity text /\
  forall more, escapeHtml (text ++ more) = escapeHtml text ++ escapeHtml more.
Proof.
  split; [apply escapeHtml_flat_map | intros more; apply escapeHtml_app].
Qed.

Lemma amp_head (tail pre l : jsstring) :
  ~ In 38 tail -> 38 :: tail = pre ++ 38 :: l -> pre = [] /\ l = tail.
Proof.
  intros Hn E. destruct pre as [|x pre]; cbn in E; inversion E; [auto|].
  subst. exfalso. apply Hn. apply in_elt.
Qed.

Lemma entity_amp (c : N) (pre l : jsstring) :
  entity c = pre ++ 38 :: l ->
  pre = [] /\
  (l = js "amp;" \/ l = js "lt;" \/ l = js "gt;" \/ l = js "quot;" \/ l = js "#039;").
Proof.
  intros E.
  destruct (entity_cases c) as [[-> Ec]|[[-> Ec]|[[-> Ec]|[[-> Ec]|[[-> Ec]|[Hs Ec]]]]]];
    rewrite Ec in E.
  1-5: (apply amp_head in E; [destruct E as [-> ->]; auto 10|];
        cbn; intuition discriminate).
  exfalso. unfold special in Hs. rewrite !orb_false_iff, !N.eqb_neq in Hs.
  destruct pre as [|x [|y pre]]; cbn in E; inversion E. tauto.
Qed.

(** X14: escaped text contains no [<], no [>] and no quote of either kind,
    and each of its ampersands starts one of the five entities. *)
Theorem escapeHtml_no_markup (text : jsstring) :
  Forall (fun c => c <> 60 /\ c <> 62 /\ c <> 34 /\ c <> 39) (escapeHtml text) /\
  (forall pre post,
      escapeHtml text = pre ++ 38 :: post ->
      startsWith post (js "amp;") = true \/ startsWith post (js "lt;") = true \/
      startsWith post (js "gt;") = true \/ startsWith post (js "quot;") = true \/
      startsWith post (js "#039;") = true).
Proof.
  rewrite escapeHtml_flat_map. split.
  - induction text as [|c text IH]; [constructor|].
    cbn [flat_map]. apply Forall_app. split; [|exact IH].
    destruct (entity_cases c) as [[-> E]|[[-> E]|[[-> E]|[[-> E]|[[-> E]|[Hs E]]]]]];
      rewrite E.
    1-5: repeat constructor; intros F; discriminate F.
    unfold special in Hs. rewrite !orb_false_iff, !N.eqb_neq in Hs.
    constructor; [tauto | constructor].
  - induction text as [|c text IH]; intros pre post E.
    + destruct pre; discriminate E.
    + cbn [flat_map] in E. apply app_eq_app in E.
      destruct E as [l [[E1 E2] | [E1 E2]]].
      * destruct l as [|x l]; cbn in E2.
        -- apply (IH [] post). symmetry. exact E2.
        -- inversion E2; subst x post.
           destruct (entity_amp c pre l E1) as [_ Hl].
           destruct Hl as [->|[->|[->|[->| ->]]]];
             [left | right; left | right; right; left
             | right; right; right; left | right; right; right; right];
             apply startsWith_spec; eexists; reflexivity.
      * apply (IH l post). exact E2.
Qed.

Lemma flat_map_entity_injective (a b : jsstring) :
  flat_map entity a = flat_map entity b -> a = b.
Proof.
  revert b. induction a as [|x a IH]; intros [|y b] E; cbn [flat_map] in E.
  - reflexivity.
  - exfalso. destruct (entity_cases y) as [[_ Ey]|[[_ Ey]|[[_ Ey]|[[_ Ey]|[[_ Ey]|[_ Ey]]]]]];
      rewrite Ey in E; discriminate E.
  - exfalso. destruct (entity_cases x) as [[_ Ex]|[[_ Ex]|[[_ Ex]|[[_ Ex]|[[_ Ex]|[_ Ex]]]]]];
      rewrite Ex in E; discriminate E.
  - assert (Hxy : x = y /\ flat_map entity a = flat_map entity b).
    { destruct (entity_cases x) as [[Hx Ex]|[[Hx Ex]|[[Hx Ex]|[[Hx Ex]|[[Hx Ex]|[Hx Ex]]]]]];
      destruct (entity_cases y) as [[Hy Ey]|[[Hy Ey]|[[Hy Ey]|[[Hy Ey]|[[Hy Ey]|[Hy Ey]]]]]];
      rewrite Ex, Ey in E; cbn in E;
      try discriminate E;
      inversion E; subst;
      first [ split; [reflexivity | assumption]
            | split; reflexivity
            | match goal with
              | Hs : special _ = false |- _ => vm_compute in Hs; discriminate Hs
              end ]. }
    destruct Hxy as [-> Hab]. f_equal. apply IH. exact Hab.
Qed.

(** X15: [escapeHtml] loses nothing: two texts with the same escaped form are
    the same text. *)
Theorem escapeHtml_injective (a b : jsstring) :
  escapeHtml a = escapeHtml b -> a = b.
Proof.
  rewrite !escapeHtml_flat_map. apply flat_map_entity_injective.
Qed.

Lemma escapeHtml_injective_witness :
  escapeHtml (js "a<b") = js "a&lt;b" /\ js "a<b" = [97; 60; 98].
Proof.
  split; [vm_compute; reflexivity|].
  apply escapeHtml_injective. vm_compute. reflexivity.
Defined.

Lemma flat_map_entity_length (s : jsstring) :
  (length s <= length (flat_map entity s))%nat /\
  (length (flat_map entity s) = length s <-> Forall (fun c => special c = false) s).
Proof.
  induction s as [|c s [IH1 IH2]]; cbn [flat_map length].
  - split; [lia|]. split; [constructor | reflexivity].
  - rewrite length_app.
    destruct (entity_cases c) as [[-> E]|[[-> E]|[[-> E]|[[-> E]|[[-> E]|[Hs E]]]]]];
      rewrite E; cbn [length js map list_ascii_of_string].
    1-5: (split; [lia|]; split;
          [intros F; lia | intros F; inversion F; subst; discriminate]).
    split; [lia|]. split.
    + intros F. constructor; [exact Hs | apply IH2; lia].
    + intros F. inversion F; subst. apply IH2 in H2. lia.
Qed.

(** X16: the texts [escapeHtml] leaves unchanged are those without any of the
    five special characters, and so are the texts for which escaping twice
    is the same as escaping once: escaping an escaped text escapes its
    ampersands again. *)
Theorem escapeHtml_twice (text : jsstring) :
  (escapeHtml text = text <-> Forall (fun c => special c = false) text) /\
  (escapeHtml (escapeHtml text) = escapeHtml text <->
   Forall (fun c => special c = false) text).
Proof.
  assert (Hfix : forall s, escapeHtml s = s <-> Forall (fun c => special c = false) s).
  { intros s. rewrite escapeHtml_flat_map. split.
    - intros E. apply flat_map_entity_length. rewrite E. reflexivity.
    - induction 1 as [|c s Hc _ IH]; [reflexivity|].
      cbn [flat_map]. rewrite IH.
      destruct (entity_cases c) as [[-> _]|[[-> _]|[[-> _]|[[-> _]|[[-> _]|[_ ->]]]]]];
        try discriminate Hc. reflexivity. }
  split; [apply Hfix|]. split.
  - intros E. rewrite !escapeHtml_flat_map in E.
    apply flat_map_entity_injective in E. rewrite <- escapeHtml_flat_map in E.
    apply Hfix. exact E.
  - intros Hs. apply Hfix in Hs. rewrite Hs. exact Hs.
Qed.

(** ** Reading the output of git *)

Lemma split_on_nonempty (sep : N) (s : jsstring) : split_on sep s <> [].
Proof.
  destruct s as [|c s]; cbn [split_on]; [discriminate|].
  destruct (c =? sep); [discriminate|].
  destruct (split_on sep s); discriminate.
Qed.

Lemma join_cons (sep x : jsstring) (rest : list jsstring) :
  rest <> [] -> join sep (x :: rest) = x ++ sep ++ join sep rest.
Proof. destruct rest; [contradiction | reflexivity]. Qed.

(** Joining the pieces with the separator gives the string back, and no
    piece holds the separator. *)
Lemma split_on_join (sep : N) (s : jsstring) :
  join [sep] (split_on sep s) = s /\
  Forall (fun p => ~ In sep p) (split_on sep s).
Proof.
  induction s as [|c s [IHj IHf]]; cbn [split_on].
  - split; [reflexivity|]. constructor; [intros [] | constructor].
  - destruct (N.eqb_spec c sep) as [->|Hc].
    + split.
      * rewrite join_cons by apply split_on_nonempty. rewrite IHj. reflexivity.
      * constructor; [intros [] | exact IHf].
    + pose proof (split_on_nonempty sep s) as Hne.
      destruct (split_on sep s) as [|p ps]; [contradiction|].
      split.
      * destruct ps as [|q ps]; cbn [join] in *; rewrite <- IHj; reflexivity.
      * inversion IHf; subst. constructor; [|assumption].
        intros [F|F]; [congruence | contradiction].
Qed.

Lemma split_on_head (sep : N) (s : jsstring) :
  exists p ps, split_on sep s = p :: ps /\
               (ps = [] <-> ~ In sep s).
Proof.
  induction s as [|c s [p [ps [E Hps]]]]; cbn [split_on].
  - exists [], []. split; [reflexivity|]. split; [intros _ [] | reflexivity].
  - destruct (N.eqb_spec c sep) as [->|Hc].
    + exists [], (split_on sep s). split; [reflexivity|]. split.
      * intros F. exfalso. exact (split_on_nonempty sep s F).
      * intros F. exfalso. apply F. left. reflexivity.
    + rewrite E. exists (c :: p), ps. split; [reflexivity|].
      rewrite Hps. split.
      * intros F [G|G]; [congruence | contradiction].
      * intros F G. apply F. right. exact G.
Qed.

(** A line of [git show --name-status] is cut at its first tab: the
    status is what precedes it and holds no tab, the path is all that
    follows, so that status, tab and path give the line back; a line
    without a tab is all status and has the empty path. *)
Lemma name_status_recomposes (line : jsstring) :
  ~ In 9 (fc_status (name_status line)) /\
  (In 9 line ->
   line = fc_status (name_status line) ++ [9] ++ fc_path (name_status line)) /\
  (~ In 9 line ->
   fc_status (name_status line) = line /\ fc_path (name_status line) = []).
Proof.
  unfold name_status.
  destruct (split_on_head 9 line) as [p [ps [E Hps]]].
  destruct (split_on_join 9 line) as [Hj Hf].
  rewrite E in *. cbn [fc_status fc_path].
  split; [exact (Forall_inv Hf)|]. split.
  - intros Hin. destruct ps as [|q ps].
    + exfalso. apply (proj1 Hps); [reflexivity | exact Hin].
    + rewrite join_cons in Hj by discriminate. symmetry. exact Hj.
  - intros Hn. apply Hps in Hn. subst ps. cbn [join] in *. auto.
Qed.

(** X17: [getCommitFiles] rejects unless git exited with status 0, with what
    git wrote on its error stream or, if it wrote nothing, with [Commit not
    found]; otherwise it resolves with one entry for each line of the
    output that is not blank, in the order of the output, each entry being
    its line cut at the first tab. *)
Theorem getCommitFiles_spec (git_show : Child) :
  (child_code git_show <> Some 0%Z ->
   getCommitFiles git_show =
     inl (if truthy (child_stderr git_show) then child_stderr git_show
          else js "Commit not found")) /\
  (child_code git_show = Some 0%Z ->
   exists files,
     getCommitFiles git_show = inr files /\
     Forall2 (fun f line =>
                truthy (trim line) = true /\
                ~ In 9 (fc_status f) /\
                (line = fc_status f ++ [9] ++ fc_path f \/
                 (line = fc_status f /\ fc_path f = [])))
             files (nonblank_lines (child_stdout git_show))).
Proof.
  unfold getCommitFiles. split.
  - intros Hc.
    destruct (child_code git_show) as [[|p|p]|]; try (exfalso; apply Hc; reflexivity);
      destruct (child_stderr git_show); reflexivity.
  - intros ->. eexists. split; [reflexivity|].
    unfold nonblank_lines.
    induction (split_on 10 (child_stdout git_show)) as [|l ls IH]; cbn [filter map].
    + constructor.
    + destruct (truthy (trim l)) eqn:El; [|exact IH].
      cbn [map]. constructor; [|exact IH].
      destruct (name_status_recomposes l) as [Hs [Ht Hn]].
      split; [exact El|]. split; [exact Hs|].
      destruct (in_dec N.eq_dec 9 l) as [Hin|Hin].
      * left. apply Ht. exact Hin.
      * right. destruct (Hn Hin) as [E1 E2]. auto.
Qed.

Lemma trimStart_head (s : jsstring) :
  match trimStart s with
  | [] => True
  | c :: _ => is_space c = false
  end.
Proof.
  induction s as [|c s IH]; cbn [trimStart]; [exact I|].
  destruct (is_space c) eqn:E; [exact IH | exact E].
Qed.

Lemma trimEnd_last (s t : jsstring) (c : N) :
  trimEnd s = t ++ [c] -> is_space c = false.
Proof.
  unfold trimEnd. intros E. pose proof (trimStart_head (rev s)) as Hh.
  destruct (trimStart (rev s)) as [|x r].
  - destruct t; discriminate E.
  - cbn [rev] in E. apply app_inj_tail in E. destruct E as [_ <-]. exact Hh.
Qed.

Lemma strip_spec (p s r : jsstring) : strip p s = Some r -> s = p ++ r.
Proof.
  unfold strip. destruct (startsWith s p) eqn:E; [|discriminate].
  intros F. inversion F. apply startsWith_spec in E. destruct E as [t ->].
  rewrite skipn_app, skipn_all, Nat.sub_diag. reflexivity.
Qed.

(** X18: every branch listed by [getGitInfo] is a line of the output of
    [git branch -a] without its surrounding white space and without the
    marker of the current branch; none is empty, none contains [->] (the
    symbolic references are left out), none ends in white space. *)
Theorem branches_spec (branchOutput b : jsstring) :
  In b (branches branchOutput) ->
  b <> [] /\
  includes b (js "->") = false /\
  (forall t c, b = t ++ [c] -> is_space c = false) /\
  exists line,
    In line (split_on 10 branchOutput) /\
    (trim line = b \/ trim line = js "* " ++ b).
Proof.
  unfold branches. rewrite filter_In, in_map_iff, andb_true_iff, negb_true_iff.
  intros [[line [Eb Hline]] [Ht Hi]].
  split; [intros ->; discriminate Ht|]. split; [exact Hi|].
  assert (Hcase : trim line = b \/ trim line = js "* " ++ b).
  { unfold branch_name in Eb.
    destruct (strip (js "* ") (trim line)) as [name|] eqn:Es.
    - right. subst name. apply strip_spec. exact Es.
    - left. exact Eb. }
  split; [|exists line; auto].
  intros t c ->. destruct Hcase as [E|E].
  - apply (trimEnd_last (trimStart line) t). exact E.
  - apply (trimEnd_last (trimStart line) (js "* " ++ t)).
    rewrite <- app_assoc. exact E.
Qed.

Lemma branches_spec_witness :
  In (js "main")
     (branches (js "* main" ++ [10] ++ js "  remotes/origin/HEAD -> origin/main"
                ++ [10] ++ js "  dev" ++ [10])) /\
  branches (js "* main" ++ [10] ++ js "  remotes/origin/HEAD -> origin/main"
            ++ [10] ++ js "  dev" ++ [10]) = [js "main"; js "dev"].
Proof.
  assert (Hin : In (js "main")
     (branches (js "* main" ++ [10] ++ js "  remotes/origin/HEAD -> origin/main"
                ++ [10] ++ js "  dev" ++ [10])))
    by (vm_compute; left; reflexivity).
  split; [exact Hin|].
  destruct (branches_spec _ _ Hin) as [_ _]. vm_compute. reflexivity.
Defined.

(** ** The registry *)

Lemma with_suffix_spec (name : jsstring) :
  endsWith (with_suffix name) (js ".git") = true /\
  with_suffix (with_suffix name) = with_suffix name /\
  (endsWith name (js ".git") = false -> with_suffix name = name ++ js ".git") /\
  (endsWith name (js ".git") = true -> with_suffix name = name).
Proof.
  assert (Happ : endsWith (name ++ js ".git") (js ".git") = true)
    by (apply endsWith_spec; exists name; reflexivity).
  unfold with_suffix. destruct (endsWith name (js ".git")) eqn:E.
  - rewrite E. repeat split; auto; discriminate.
  - rewrite Happ. repeat split; auto; discriminate.
Qed.

Lemma existsb_false {A} (f : A -> bool) (l : list A) :
  existsb f l = false <-> Forall (fun x => f x = false) l.
Proof.
  induction l as [|x l IH]; cbn [existsb].
  - split; [constructor | reflexivity].
  - rewrite orb_false_iff, IH. split.
    + intros [Hx Hl]. constructor; assumption.
    + intros F. inversion F; auto.
Qed.

Lemma find_fresh {A} (f : A -> bool) (l : list A) (x : A) :
  existsb f l = false -> f x = true -> find f (l ++ [x]) = Some x.
Proof.
  intros Hl Hx. induction l as [|y l IH]; cbn [app find].
  - rewrite Hx. reflexivity.
  - cbn [existsb] in Hl. apply orb_false_iff in Hl. destruct Hl as [Hy Hl].
    rewrite Hy. apply IH. exact Hl.
Qed.

Lemma find_filtered {A} (f : A -> bool) (l : list A) :
  find f (filter (fun x => negb (f x)) l) = None.
Proof.
  induction l as [|y l IH]; [reflexivity|].
  cbn [filter]. destruct (f y) eqn:E; cbn [negb]; [exact IH|].
  cbn [find]. rewrite E. exact IH.
Qed.

Lemma filter_fresh {A} (f : A -> bool) (l : list A) (x : A) :
  existsb f l = false -> f x = true ->
  filter (fun y => negb (f y)) (l ++ [x]) = l.
Proof.
  intros Hl Hx. rewrite filter_app. cbn [filter]. rewrite Hx. cbn [negb].
  rewrite app_nil_r. apply existsb_false in Hl.
  induction Hl as [|y l Hy _ IH]; [reflexivity|].
  cbn [filter]. rewrite Hy. cbn [negb]. rewrite IH. reflexivity.
Qed.

(** Deleting rows keeps a column free of duplicates. *)
Lemma NoDup_map_filter {Row Key : Type} (rows : list Row) (column : Row -> Key)
  (kept : Row -> bool) :
  NoDup (map column rows) -> NoDup (map column (filter kept rows)).
Proof.
  induction rows as [|x l IH]; cbn [map filter]; [auto|].
  intros Hn. inversion Hn as [|y ys Hx Hl]; subst.
  destruct (kept x); [|apply IH; exact Hl].
  cbn [map]. constructor; [|apply IH; exact Hl].
  intros Hin. apply Hx. rewrite in_map_iff in *.
  destruct Hin as [z [Ez Hz]]. exists z. split; [exact Ez|].
  apply filter_In in Hz. tauto.
Qed.

(** A discovery request with a supported service reaches [handleInfoRefs]
    for the name taken from its path. *)
Lemma discovery_served `{Node} (e : Env) (req : Request) (parsed : Parsed)
  (name service : jsstring) :
  parsePath (url req) = Some parsed -> api_route req = None ->
  repo parsed = Some name -> path parsed = js "/info/refs" ->
  searchParams_get (query parsed) (js "service") = Some service ->
  service = js "git-upload-pack" \/ service = js "git-receive-pack" ->
  server e req = Served (handleInfoRefs e name service).
Proof.
  intros Hp Ha Hr Hpath Hq Hs. unfold server. rewrite Hp, Ha, Hr.
  unfold git_routes. rewrite Hpath, Hq.
  change (str_eqb (js "/info/refs") (js "/info/refs")) with true.
  replace (str_eqb service (js "git-upload-pack")
           || str_eqb service (js "git-receive-pack")) with true; [reflexivity|].
  symmetry. apply orb_true_iff. rewrite !str_eqb_eq. exact Hs.
Qed.

(** No name that [parsePath] takes from a URL holds a slash. *)
Lemma parsed_repo_no_slash `{Node} (target : jsstring) (parsed : Parsed)
  (name : jsstring) :
  parsePath target = Some parsed -> repo parsed = Some name -> ~ In slash name.
Proof.
  unfold parsePath. destruct (URL_new target _) as [u|]; [|discriminate].
  destruct (match_repo (pathname u)) as [[m1 m2]|] eqn:Em;
    intros E; inversion E; subst parsed; cbn [repo]; [|discriminate].
  intros F. inversion F; subst m1.
  apply (match_repo_name _ _ _ Em).
Qed.

Section RegistryProperties.
Context `{Node} {D : Type} `{Disk D}.
Variable REPOS : jsstring.

(** X19: [createRepository] works on the name with its [.git] suffix: a name
    given without the suffix and the same name given with it are the same
    call, and the name a success reports always ends in [.git]. *)
Theorem createRepository_name (name description stamp : jsstring) (id : N)
  (st : Store D) :
  createRepository REPOS (with_suffix name) description stamp id st =
    createRepository REPOS name description stamp id st /\
  (endsWith name (js ".git") = false ->
   createRepository REPOS (name ++ js ".git") description stamp id st =
     createRepository REPOS name description stamp id st) /\
  (forall created,
      fst (createRepository REPOS name description stamp id st) = Created created ->
      created = with_suffix name /\ endsWith created (js ".git") = true).
Proof.
  destruct (with_suffix_spec name) as [He [Hi [Hf _]]].
  split; [|split].
  - unfold createRepository. rewrite Hi. reflexivity.
  - intros E. rewrite <- (Hf E). unfold createRepository. rewrite Hi. reflexivity.
  - intros created. unfold createRepository.
    destruct (existsSync _ _); [discriminate|].
    destruct (existsb _ _); [discriminate|].
    cbn [fst]. intros E. inversion E. auto.
Qed.

(** X20: a repository that [createRepository] reports created is there: its
    directory exists, [getRepository] finds its row with the description
    given, the discovery handler answers 200 for it, and so does the server
    to a discovery request with a supported service whenever [parsePath]
    takes that name from the URL; a name created with a slash in it is
    never what [parsePath] takes from a URL, so that such a repository is
    out of reach of the server; creating the repository again fails with
    [Repository already exists] and changes nothing. *)
Theorem created_is_served (name description stamp created : jsstring)
  (id : N) (st st' : Store D) :
  createRepository REPOS name description stamp id st = (Created created, st') ->
  existsSync (disk st') (path_join REPOS created) = true /\
  (exists row,
      getRepository created st' = Some row /\
      rp_name row = created /\ rp_description row = description /\
      rp_created_at row = stamp) /\
  (forall service ticks run pages,
      status (response (handleInfoRefs (env_of REPOS st' ticks run pages)
                          created service)) = 200) /\
  (forall req parsed service ticks run pages,
      parsePath (url req) = Some parsed -> api_route req = None ->
      repo parsed = Some created -> path parsed = js "/info/refs" ->
      searchParams_get (query parsed) (js "service") = Some service ->
      service = js "git-upload-pack" \/ service = js "git-receive-pack" ->
      status_of (server (env_of REPOS st' ticks run pages) req) = Some 200) /\
  (In slash created ->
   forall req parsed,
     parsePath (url req) = Some parsed -> repo parsed <> Some created) /\
  (forall description' stamp' id',
      createRepository REPOS name description' stamp' id' st' =
        (Failure (js "Repository already exists"), st')).
Proof.
  unfold createRepository.
  destruct (existsSync (disk st) (path_join REPOS (with_suffix name))) eqn:Ee;
    [discriminate|].
  destruct (existsb (named (with_suffix name)) (repositories st)) eqn:Er;
    [discriminate|].
  intros E. inversion E; subst created st'. clear E. cbn [disk repositories].
  assert (Hex : existsSync
                  (git_init (path_join REPOS (with_suffix name))
                     (mkdirSync (path_join REPOS (with_suffix name)) (disk st)))
                  (path_join REPOS (with_suffix name)) = true)
    by (apply git_init_keeps, mkdirSync_exists).
  assert (Hinfo : forall service ticks run pages,
             status (response
                       (handleInfoRefs
                          (env_of REPOS
                             {| disk := git_init (path_join REPOS (with_suffix name))
                                          (mkdirSync (path_join REPOS (with_suffix name))
                                                     (disk st));
                                repositories :=
                                  repositories st ++
                                  [{| rp_id := id; rp_name := with_suffix name;
                                      rp_description := description;
                                      rp_created_at := stamp |}];
                                hooks := hooks st;
                                foreign_keys := foreign_keys st |}
                             ticks run pages)
                          (with_suffix name) service)) = 200).
  { intros service ticks run pages. unfold handleInfoRefs, getRepoPath, env_of.
    cbn [REPOS_DIR fs_existsSync disk]. rewrite Hex. reflexivity. }
  split; [exact Hex|]. split; [|split; [|split; [|split]]].
  - eexists. split.
    + unfold getRepository. cbn [repositories].
      apply find_fresh; [exact Er|]. unfold named. cbn [rp_name].
      apply str_eqb_refl.
    + cbn. auto.
  - exact Hinfo.
  - intros req parsed service ticks run pages Hp Ha Hr Hpath Hq Hs.
    rewrite (discovery_served _ req parsed (with_suffix name) service
               Hp Ha Hr Hpath Hq Hs).
    cbn [status_of]. f_equal. apply Hinfo.
  - intros Hslash req parsed Hp Hr.
    exact (parsed_repo_no_slash _ _ _ Hp Hr Hslash).
  - intros description' stamp' id'. cbn [disk]. rewrite Hex. reflexivity.
Qed.

(** X21: once [deleteRepository] reports success the repository is gone: its
    directory does not exist, [getRepository] finds no row, the discovery
    handler answers 404 for it, and deleting it again fails with
    [Repository not found].  Its webhooks go with it when foreign keys are
    enforced and the repository had a row; when foreign keys are not
    enforced, or the repository had no row, every webhook stays. *)
Theorem deleted_is_gone (name : jsstring) (st st' : Store D) :
  deleteRepository REPOS name st = (Deleted, st') ->
  existsSync (disk st') (path_join REPOS (with_suffix name)) = false /\
  getRepository (with_suffix name) st' = None /\
  (forall service ticks run pages,
      status (response (handleInfoRefs (env_of REPOS st' ticks run pages)
                          (with_suffix name) service)) = 404) /\
  deleteRepository REPOS name st' = (Failure (js "Repository not found"), st') /\
  (foreign_keys st = true -> getRepository (with_suffix name) st <> None ->
   Forall (fun w => wh_repo_name w <> with_suffix name) (hooks st')) /\
  (foreign_keys st = false \/ getRepository (with_suffix name) st = None ->
   hooks st' = hooks st).
Proof.
  unfold deleteRepository.
  destruct (existsSync (disk st) (path_join REPOS (with_suffix name))) eqn:Ee;
    cbn [negb]; [|discriminate].
  intros E. inversion E; subst st'. clear E. cbn [disk repositories hooks].
  pose proof (rmSync_gone (path_join REPOS (with_suffix name)) (disk st)) as Hg.
  split; [exact Hg|]. split; [|split; [|split; [|split]]].
  - unfold getRepository. cbn [repositories]. apply find_filtered.
  - intros service ticks run pages. unfold handleInfoRefs, getRepoPath, env_of.
    cbn [REPOS_DIR fs_existsSync disk]. rewrite Hg. reflexivity.
  - rewrite Hg. reflexivity.
  - intros -> Hrow. cbn [andb].
    replace (existsb (named (with_suffix name)) (repositories st)) with true.
    + apply Forall_forall. intros w Hw. apply filter_In in Hw.
      destruct Hw as [_ Hw]. apply negb_true_iff in Hw.
      intros F. rewrite <- str_eqb_eq in F. congruence.
    + symmetry. unfold getRepository in Hrow.
      destruct (find (named (with_suffix name)) (repositories st)) as [r|] eqn:Ef;
        [|contradiction].
      apply find_some in Ef. apply existsb_exists. exists r. exact Ef.
  - intros [-> | Hrow]; [reflexivity|].
    replace (existsb (named (with_suffix name)) (repositories st)) with false;
      [rewrite andb_false_r; reflexivity|].
    symmetry. apply existsb_false. apply Forall_forall. intros r Hr.
    unfold getRepository in Hrow. apply (find_none _ _ Hrow r Hr).
Qed.

Lemma createRepository_created (name description stamp created : jsstring)
  (id : N) (st st' : Store D) :
  createRepository REPOS name description stamp id st = (Created created, st') ->
  created = with_suffix name /\
  existsSync (disk st) (path_join REPOS created) = false /\
  existsb (named created) (repositories st) = false /\
  repositories st' =
    repositories st ++
    [{| rp_id := id; rp_name := created;
        rp_description := description; rp_created_at := stamp |}] /\
  hooks st' = hooks st /\
  foreign_keys st' = foreign_keys st /\
  existsSync (disk st') (path_join REPOS created) = true.
Proof.
  unfold createRepository.
  destruct (existsSync (disk st) (path_join REPOS (with_suffix name))) eqn:Ee;
    [discriminate|].
  destruct (existsb (named (with_suffix name)) (repositories st)) eqn:Er;
    [discriminate|].
  intros E. inversion E; subst created st'. cbn [disk repositories hooks foreign_keys].
  repeat (split; [first [reflexivity | assumption]|]).
  apply git_init_keeps, mkdirSync_exists.
Qed.

(** X22: a repository just created can be deleted, under the name it was
    created with or under the name reported, and the table of repositories
    is then as it was before the creation. *)
Theorem create_then_delete (name description stamp created : jsstring)
  (id : N) (st st' : Store D) :
  createRepository REPOS name description stamp id st = (Created created, st') ->
  fst (deleteRepository REPOS name st') = Deleted /\
  deleteRepository REPOS created st' = deleteRepository REPOS name st' /\
  repositories (snd (deleteRepository REPOS name st')) = repositories st.
Proof.
  intros Hc.
  destruct (createRepository_created _ _ _ _ _ _ _ Hc)
    as [-> [_ [Er [Hrepos [_ [_ Hex]]]]]].
  destruct (with_suffix_spec name) as [_ [Hi _]].
  unfold deleteRepository. rewrite Hi, Hex. cbn [negb fst snd repositories].
  split; [reflexivity|]. split; [reflexivity|].
  rewrite Hrepos. apply filter_fresh; [exact Er|].
  unfold named. cbn [rp_name]. apply str_eqb_refl.
Qed.

(** X23: when the row of a repository is in the table but its directory is
    not there, [deleteRepository] refuses ([Repository not found]) and
    leaves the row; [createRepository] makes the directory and then raises
    on the insertion, after which it refuses ([Repository already exists]);
    deleting then removes directory and row, and the repository can be
    created. *)
Theorem stale_row (name description stamp : jsstring) (id : N) (st : Store D)
  (row : Repository) :
  getRepository (with_suffix name) st = Some row ->
  existsSync (disk st) (path_join REPOS (with_suffix name)) = false ->
  deleteRepository REPOS name st = (Failure (js "Repository not found"), st) /\
  exists st1 st2 st3,
    createRepository REPOS name description stamp id st = (Raised, st1) /\
    existsSync (disk st1) (path_join REPOS (with_suffix name)) = true /\
    repositories st1 = repositories st /\
    createRepository REPOS name description stamp id st1 =
      (Failure (js "Repository already exists"), st1) /\
    deleteRepository REPOS name st1 = (Deleted, st2) /\
    createRepository REPOS name description stamp id st2 =
      (Created (with_suffix name), st3).
Proof.
  intros Hrow Hmiss.
  assert (Hin : existsb (named (with_suffix name)) (repositories st) = true).
  { unfold getRepository in Hrow. apply find_some in Hrow.
    apply existsb_exists. exists row. exact Hrow. }
  split; [unfold deleteRepository; rewrite Hmiss; reflexivity|].
  assert (Hex : existsSync
                  (git_init (path_join REPOS (with_suffix name))
                     (mkdirSync (path_join REPOS (with_suffix name)) (disk st)))
                  (path_join REPOS (with_suffix name)) = true)
    by (apply git_init_keeps, mkdirSync_exists).
  eexists. eexists. eexists.
  split; [unfold createRepository; rewrite Hmiss, Hin; reflexivity|].
  cbn [disk repositories]. split; [exact Hex|]. split; [reflexivity|].
  split; [unfold createRepository; cbn [disk]; rewrite Hex; reflexivity|].
  split; [unfold deleteRepository; cbn [disk]; rewrite Hex; reflexivity|].
  unfold createRepository. cbn [disk repositories].
  rewrite rmSync_gone.
  replace (existsb (named (with_suffix name))
             (filter (fun r => negb (named (with_suffix name) r)) (repositories st)))
    with false; [reflexivity|].
  symmetry. apply existsb_false. apply Forall_forall. intros r Hr.
  apply filter_In in Hr. destruct Hr as [_ Hr]. apply negb_true_iff. exact Hr.
Qed.

End RegistryProperties.

Section StorageProperties.
Context `{Node} {D : Type} `{Disk D}.
Variable REPOS : jsstring.

Lemma NoDup_snoc {A} (l : list A) (x : A) :
  NoDup l -> ~ In x l -> NoDup (l ++ [x]).
Proof.
  intros Hl Hx. apply NoDup_app; [exact Hl | constructor; [intros [] | constructor] |].
  intros y Hy [<- | []]. exact (Hx Hy).
Qed.

(** X24: the four calls that write to the database keep it as the schema
    asks, no repository name twice and no row identifier twice, as long as
    the database gives each new row an identifier not in use. *)
Theorem registry_consistent (st : Store D) :
  consistent st ->
  (forall name description stamp id,
      ~ In id (map rp_id (repositories st)) ->
      consistent (snd (createRepository REPOS name description stamp id st))) /\
  (forall name, consistent (snd (deleteRepository REPOS name st))) /\
  (forall repoName url secret stamp id st',
      ~ In id (map wh_id (hooks st)) ->
      createWebhook repoName url secret stamp id st = Some st' ->
      consistent st') /\
  (forall id, consistent (deleteWebhook id st)).
Proof.
  intros [Hn [Hr Hw]]. split; [|split; [|split]].
  - intros name description stamp id Hid. unfold createRepository.
    destruct (existsSync _ _); [repeat split; assumption|].
    destruct (existsb _ _) eqn:Er; [repeat split; assumption|].
    unfold consistent. cbn [snd repositories hooks].
    split; [|split; [|assumption]].
    + rewrite map_app. cbn [map rp_name]. apply NoDup_snoc; [exact Hn|].
      intros Hin. apply in_map_iff in Hin. destruct Hin as [r [Er' Hin]].
      apply existsb_false in Er. rewrite Forall_forall in Er.
      specialize (Er r Hin). unfold named in Er.
      rewrite <- str_eqb_eq in Er'. congruence.
    + rewrite map_app. cbn [map rp_id]. apply NoDup_snoc; assumption.
  - intros name. unfold deleteRepository.
    destruct (negb _); [repeat split; assumption|].
    unfold consistent. cbn [snd repositories hooks].
    split; [apply NoDup_map_filter; exact Hn|].
    split; [apply NoDup_map_filter; exact Hr|].
    destruct (foreign_keys st && _); [|assumption].
    apply NoDup_map_filter; exact Hw.
  - intros repoName url secret stamp id st' Hid. unfold createWebhook.
    destruct (foreign_keys st && _); [discriminate|].
    intros E. inversion E; subst st'. clear E.
    unfold consistent. cbn [repositories hooks].
    split; [exact Hn|]. split; [exact Hr|].
    rewrite map_app. cbn [map wh_id]. apply NoDup_snoc; assumption.
  - intros id. unfold deleteWebhook, consistent. cbn [repositories hooks].
    split; [exact Hn|]. split; [exact Hr|].
    apply NoDup_map_filter; exact Hw.
Qed.

(** X25: [createWebhook] raises exactly when foreign keys are enforced and
    the repository has no row; otherwise the subscription is stored with
    the events [push], and the next push to the repository makes an attempt
    for it, with the URL and the secret given. *)
Theorem created_webhook_is_dispatched (repoName url secret stamp : jsstring)
  (id : N) (st : Store D) :
  (createWebhook repoName url secret stamp id st = None <->
   foreign_keys st = true /\ getRepository repoName st = None) /\
  (forall st' ticks run pages payload,
      createWebhook repoName url secret stamp id st = Some st' ->
      exists a,
        In a (attempts (snd (triggerWebhooks (env_of REPOS st' ticks run pages)
                               repoName (js "push") payload idle))) /\
        wh_id (att_webhook a) = id /\
        wh_url (att_webhook a) = url /\ wh_secret (att_webhook a) = secret /\
        wh_events (att_webhook a) = js "push").
Proof.
  split.
  - unfold createWebhook, getRepository.
    destruct (foreign_keys st); cbn [andb].
    + destruct (existsb (named repoName) (repositories st)) eqn:Er; cbn [negb].
      * split; [discriminate|]. intros [_ Hf]. exfalso.
        apply existsb_exists in Er. destruct Er as [r [Hin Hr]].
        apply (find_none _ _ Hf) in Hin. congruence.
      * split; [|reflexivity]. intros _. split; [reflexivity|].
        apply existsb_false in Er. rewrite Forall_forall in Er.
        destruct (find (named repoName) (repositories st)) as [r|] eqn:Ef;
          [|reflexivity].
        apply find_some in Ef. destruct Ef as [Hin Hr].
        rewrite (Er r Hin) in Hr. discriminate Hr.
    + split; [discriminate | intros [F _]; discriminate F].
  - intros st' ticks run pages payload. unfold createWebhook.
    destruct (foreign_keys st && _); [discriminate|].
    intros E. inversion E; subst st'. clear E.
    set (w := {| wh_id := id; wh_repo_name := repoName;
                 wh_url := url; wh_secret := secret;
                 wh_events := js "push"; wh_created_at := stamp |}).
    set (env := env_of REPOS _ ticks run pages).
    destruct (triggerWebhooks_attempts env repoName (js "push") payload)
      as [Hperm _].
    assert (Hin : In w (map att_webhook
                          (attempts (snd (triggerWebhooks env repoName (js "push")
                                            payload idle))))).
    { apply (Permutation_in _ (Permutation_sym Hperm)).
      apply filter_In. split.
      - subst env. cbn [env_of webhooks hooks]. apply in_or_app. right.
        left. reflexivity.
      - unfold subscribed. subst w. cbn [wh_repo_name wh_events].
        rewrite str_eqb_refl. reflexivity. }
    apply in_map_iff in Hin. destruct Hin as [a [Ea Hin]].
    exists a. split; [exact Hin|]. rewrite Ea. subst w. cbn. auto.
Qed.

(** X26: [deleteWebhook] removes the rows with the identifier given and no
    other, so that the dispatcher makes no attempt for it any more;
    deleting a subscription just created, under the identifier the database
    gave it, leaves the subscriptions as they were before. *)
Theorem deleteWebhook_spec (id : N) (st : Store D) :
  (forall w, In w (hooks (deleteWebhook id st)) <->
             In w (hooks st) /\ wh_id w <> id) /\
  (forall ticks run pages repoName event payload a,
      In a (attempts (snd (triggerWebhooks
                             (env_of REPOS (deleteWebhook id st) ticks run pages)
                             repoName event payload idle))) ->
      wh_id (att_webhook a) <> id /\ In (att_webhook a) (hooks st)) /\
  (forall repoName url secret stamp st',
      ~ In id (map wh_id (hooks st)) ->
      createWebhook repoName url secret stamp id st = Some st' ->
      hooks (deleteWebhook id st') = hooks st).
Proof.
  assert (Hrows : forall w, In w (hooks (deleteWebhook id st)) <->
                            In w (hooks st) /\ wh_id w <> id).
  { intros w. unfold deleteWebhook. cbn [hooks].
    rewrite filter_In, negb_true_iff, N.eqb_neq. reflexivity. }
  split; [exact Hrows|]. split.
  - intros ticks run pages repoName event payload a Hin.
    destruct (triggerWebhooks_attempts
                (env_of REPOS (deleteWebhook id st) ticks run pages)
                repoName event payload) as [Hperm _].
    assert (Hw : In (att_webhook a)
                    (filter (subscribed repoName event)
                            (hooks (deleteWebhook id st)))).
    { apply (Permutation_in _ Hperm). apply in_map. exact Hin. }
    apply filter_In in Hw. destruct Hw as [Hw _].
    apply Hrows in Hw. tauto.
  - intros repoName url secret stamp st' Hid. unfold createWebhook.
    destruct (foreign_keys st && _); [discriminate|].
    intros E. inversion E; subst st'. clear E.
    unfold deleteWebhook. cbn [hooks].
    rewrite filter_app. cbn [filter wh_id]. rewrite N.eqb_refl. cbn [negb].
    rewrite app_nil_r. revert Hid. generalize (hooks st) as l.
    induction l as [|w l IH]; intros Hid; [reflexivity|].
    cbn [filter]. destruct (N.eqb_spec (wh_id w) id) as [E|E].
    + exfalso. apply Hid. left. exact E.
    + cbn [negb]. rewrite IH; [reflexivity|].
      intros F. apply Hid. right. exact F.
Qed.
End StorageProperties.

(** The calls of the registry on the disk of the examples. *)
Lemma created_is_served_witness :
  exists st',
    createRepository (js "./repos") (js "demo") (js "A demo")
                     (js "2026-01-01 10:00:00") 1 empty_store
      = (Created (js "demo.git"), st') /\
    existsSync (disk st') (path_join (js "./repos") (js "demo.git")) = true /\
    status_of (server (env_of (js "./repos") st' same_millisecond
                         (fun _ _ => {| stdout := []; exit_code := Some 0%Z |})
                         (fun _ => None))
                      (GET "/demo.git/info/refs?service=git-upload-pack"))
      = Some 200.
Proof.
  eexists. split; [vm_compute; reflexivity|].
  match goal with
  | |- existsSync (disk ?st) _ = true /\ _ =>
      destruct (created_is_served (js "./repos") (js "demo") (js "A demo")
                  (js "2026-01-01 10:00:00") (js "demo.git") 1 empty_store st)
        as [Hex [_ [_ [Hsrv _]]]]; [vm_compute; reflexivity|]
  end.
  split; [exact Hex|].
  apply (Hsrv (GET "/demo.git/info/refs?service=git-upload-pack")
              {| repo := Some (js "demo.git"); path := js "/info/refs";
                 query := [(js "service", js "git-upload-pack")] |}
              (js "git-upload-pack"));
    try (vm_compute; reflexivity).
  left. reflexivity.
Defined.

(** [createRepository] takes the name [a/b]; the router never takes
    [a/b.git] from a path, and discovery on it is answered 404. *)
Example slash_name_is_not_routed :
  let st := snd (createRepository (js "./repos") (js "a/b") []
                   (js "2026-01-01 10:00:00") 1 empty_store) in
  fst (createRepository (js "./repos") (js "a/b") []
         (js "2026-01-01 10:00:00") 1 empty_store) = Created (js "a/b.git") /\
  existsSync (disk st) (path_join (js "./repos") (js "a/b.git")) = true /\
  server (env_of (js "./repos") st same_millisecond
            (fun _ _ => {| stdout := []; exit_code := Some 0%Z |}) (fun _ => None))
         (GET "/a/b.git/info/refs?service=git-upload-pack") = NotFound.
Proof. vm_compute. repeat split. Qed.

Lemma deleted_is_gone_witness :
  exists st st',
    deleteRepository (js "./repos") (js "demo") st = (Deleted, st') /\
    getRepository (js "demo.git") st' = None.
Proof.
  exists (snd (createRepository (js "./repos") (js "demo") []
                 (js "2026-01-01 10:00:00") 1 empty_store)).
  eexists. split; [vm_compute; reflexivity|].
  apply (deleted_is_gone (js "./repos") (js "demo")
           (snd (createRepository (js "./repos") (js "demo") []
                   (js "2026-01-01 10:00:00") 1 empty_store))).
  vm_compute. reflexivity.
Defined.

Lemma create_then_delete_witness :
  fst (deleteRepository (js "./repos") (js "demo")
         (snd (createRepository (js "./repos") (js "demo") []
                 (js "2026-01-01 10:00:00") 1 empty_store))) = Deleted.
Proof.
  apply (create_then_delete (js "./repos") (js "demo") []
           (js "2026-01-01 10:00:00") (js "demo.git") 1 empty_store).
  vm_compute. reflexivity.
Defined.

Lemma stale_row_witness :
  deleteRepository (js "./repos") (js "demo") stale_store =
    (Failure (js "Repository not found"), stale_store) /\
  fst (createRepository (js "./repos") (js "demo") [] (js "2026-01-02 10:00:00") 2
         stale_store) = Raised.
Proof.
  destruct (stale_row (js "./repos") (js "demo") [] (js "2026-01-02 10:00:00") 2
              stale_store
              {| rp_id := 1; rp_name := js "demo.git"; rp_description := [];
                 rp_created_at := js "2026-01-01 10:00:00" |})
    as [Hd [st1 [st2 [st3 [Hc _]]]]].
  - vm_compute. reflexivity.
  - vm_compute. reflexivity.
  - split; [exact Hd|]. rewrite Hc. reflexivity.
Defined.

Lemma registry_consistent_witness :
  consistent empty_store /\
  consistent (snd (createRepository (js "./repos") (js "demo") []
                     (js "2026-01-01 10:00:00") 1 empty_store)).
Proof.
  assert (H0 : consistent empty_store).
  { unfold consistent, empty_store. cbn. repeat split; constructor. }
  split; [exact H0|].
  apply (registry_consistent (js "./repos") empty_store H0).
  intros [].
Defined.

(** ** Rendering a diff *)

Lemma startsWith_app_prefix (s p q : jsstring) :
  startsWith s (p ++ q) = true -> startsWith s p = true.
Proof.
  rewrite !startsWith_spec. intros [t ->]. exists (q ++ t).
  rewrite <- app_assoc. reflexivity.
Qed.

Lemma diff_line_appends (st : Diff) (line : jsstring) :
  exists more, html (diff_line st line) = html st ++ more.
Proof.
  unfold diff_line.
  destruct (startsWith line (js "diff --git")).
  { destruct (inFile st); cbn [html add_html].
    - eexists. rewrite <- app_assoc. reflexivity.
    - eexists. reflexivity. }
  destruct (startsWith line (js "@@")); [eexists; reflexivity|].
  destruct (startsWith line (js "+") && _); [eexists; reflexivity|].
  destruct (startsWith line (js "-") && _); [eexists; reflexivity|].
  destruct (startsWith line (js "index ") || _ || _); [eexists; reflexivity|].
  destruct (inFile st); [eexists; reflexivity|].
  exists []. rewrite app_nil_r. reflexivity.
Qed.

Lemma unmarked_line (st : Diff) (line : jsstring) :
  marked line = false -> inFile st = false -> diff_line st line = st.
Proof.
  unfold marked. rewrite !orb_false_iff. intros [[[[H1 H2] H3] H4] H5] Hf.
  assert (H6 : startsWith line (js "+++") = false).
  { destruct (startsWith line (js "+++")) eqn:E; [|reflexivity].
    rewrite <- H3. symmetry.
    apply (startsWith_app_prefix line (js "+") (js "++")). exact E. }
  assert (H7 : startsWith line (js "---") = false).
  { destruct (startsWith line (js "---")) eqn:E; [|reflexivity].
    rewrite <- H4. symmetry.
    apply (startsWith_app_prefix line (js "-") (js "--")). exact E. }
  unfold diff_line. rewrite H1, H2, H3, H4, H5, H6, H7, Hf. reflexivity.
Qed.

Lemma open_tag_head (name cls : string) :
  open_tag name cls =
    60 :: js name ++ js " class=" ++ [34] ++ js cls ++ [34] ++ js ">".
Proof. reflexivity. Qed.

Lemma marked_line (st : Diff) (line : jsstring) :
  marked line = true -> html st = [] -> inFile st = false ->
  exists c rest, html (diff_line st line) = 60 :: c :: rest /\ c <> 112.
Proof.
  intros Hm Hh Hf. unfold diff_line. rewrite Hf.
  destruct (startsWith line (js "diff --git")) eqn:H1.
  { cbn [html]. rewrite Hh. exists 100. eexists. split; [reflexivity | discriminate]. }
  destruct (startsWith line (js "@@")) eqn:H2.
  { cbn [html add_html]. rewrite Hh. exists 115. eexists.
    split; [reflexivity | discriminate]. }
  destruct (startsWith line (js "+") && _) eqn:H3.
  { cbn [html add_html]. rewrite Hh. exists 115. eexists.
    split; [reflexivity | discriminate]. }
  destruct (startsWith line (js "-") && _) eqn:H4.
  { cbn [html add_html]. rewrite Hh. exists 115. eexists.
    split; [reflexivity | discriminate]. }
  destruct (startsWith line (js "index ") || _ || _) eqn:H5.
  { cbn [html add_html]. rewrite Hh. exists 115. eexists.
    split; [reflexivity | discriminate]. }
  exfalso. unfold marked in Hm. rewrite H1, H2 in Hm. cbn [orb] in Hm.
  rewrite !orb_false_iff in H5. destruct H5 as [[H5 H6] H7].
  rewrite H5, orb_false_r in Hm.
  rewrite H6 in H4. rewrite H7 in H3. cbn [negb] in H3, H4.
  rewrite andb_true_r in H3, H4. rewrite H3, H4 in Hm. discriminate Hm.
Qed.

(** The loop leaves its variables alone as long as no line is marked, and
    from the first marked line on the page starts with a tag that is not
    the paragraph of the empty case. *)
Lemma diff_lines_started (lines : list jsstring) (st : Diff) :
  (html st = [] /\ inFile st = false) \/
  (exists c rest, html st = 60 :: c :: rest /\ c <> 112) ->
  (fold_left diff_line lines st = st /\ html st = [] /\ inFile st = false /\
   Forall (fun line => marked line = false) lines) \/
  ((exists c rest, html (fold_left diff_line lines st) = 60 :: c :: rest /\ c <> 112) /\
   ((html st = [] /\ inFile st = false) ->
    Exists (fun line => marked line = true) lines)).
Proof.
  revert st. induction lines as [|line lines IH]; intros st Hst; cbn [fold_left].
  - destruct Hst as [[Hh Hf] | Hs].
    + left. auto.
    + right. split; [exact Hs|]. intros [Hh _].
      destruct Hs as [c [rest [E _]]]. rewrite Hh in E. discriminate E.
  - destruct Hst as [[Hh Hf] | Hs].
    + destruct (marked line) eqn:Hm.
      * right.
        destruct (IH (diff_line st line)) as [[_ [Hh' _]] | [Hs' _]].
        -- right. apply marked_line; assumption.
        -- exfalso. destruct (marked_line st line Hm Hh Hf) as [c [rest [E _]]].
           rewrite Hh' in E. discriminate E.
        -- split; [exact Hs'|]. intros _. left. exact Hm.
      * rewrite (unmarked_line st line Hm Hf).
        destruct (IH st) as [[E [_ [_ Hall]]] | [Hs' Hex]]; [left; auto | |].
        -- left. repeat split; auto.
        -- right. split; [exact Hs'|]. intros Hi. right. apply Hex. exact Hi.
    + right.
      assert (Hs1 : exists c rest, html (diff_line st line) = 60 :: c :: rest /\ c <> 112).
      { destruct Hs as [c [rest [E Hc]]].
        destruct (diff_line_appends st line) as [more Em].
        exists c, (rest ++ more). rewrite Em, E. split; [reflexivity | exact Hc]. }
      destruct (IH (diff_line st line)) as [[_ [Hh' _]] | [Hs' _]]; [right; exact Hs1 | |].
      * exfalso. destruct Hs1 as [c [rest [E _]]]. rewrite Hh' in E. discriminate E.
      * split; [exact Hs'|]. intros [Hh _].
        destruct Hs as [c [rest [E _]]]. rewrite Hh in E. discriminate E.
Qed.

(** X27: [formatDiff] answers with the paragraph [No changes] exactly when no
    line of the diff starts with [diff --git], [@@], [+], [-] or [index ]:
    text that comes before the first file header is dropped, and a diff
    made of such text only is shown as empty. *)
Theorem formatDiff_no_changes (diff : jsstring) :
  formatDiff diff = no_changes <->
  Forall (fun line => marked line = false) (split_on 10 diff).
Proof.
  unfold formatDiff. destruct diff as [|c diff]; cbn [truthy negb].
  { split; [|reflexivity]. intros _. cbn [split_on].
    constructor; [reflexivity | constructor]. }
  destruct (diff_lines_started (split_on 10 (c :: diff)) diff_start)
    as [[E [_ [_ Hall]]] | [[x [rest [E Hx]]] Hex]].
  - left. split; reflexivity.
  - rewrite E. cbn [diff_start inFile html truthy]. split; [intros _; exact Hall | reflexivity].
  - split.
    + intros F. exfalso.
      destruct (inFile (fold_left diff_line (split_on 10 (c :: diff)) diff_start));
        cbn [add_html html] in F; rewrite E in F; cbn [app truthy] in F;
        change no_changes with (60 :: 112 :: skipn 2 no_changes) in F;
        injection F as F _; apply Hx; exact F.
    + intros Hall. exfalso.
      specialize (Hex (conj eq_refl eq_refl)).
      apply Exists_exists in Hex. destruct Hex as [line [Hin Hm]].
      rewrite Forall_forall in Hall. rewrite (Hall line Hin) in Hm. discriminate Hm.
Qed.

Lemma nesting_app (a b : list Piece) (stack : list string) :
  nesting stack (a ++ b) =
    match nesting stack a with
    | Some stack' => nesting stack' b
    | None => None
    end.
Proof.
  revert stack. induction a as [|p a IH]; intros stack; [reflexivity|].
  cbn [app nesting]. destruct p as [name cls|name|text].
  - apply IH.
  - destruct stack as [|top below]; [reflexivity|].
    destruct (String.eqb top name); [apply IH | reflexivity].
  - apply IH.
Qed.

Lemma match_b_suffix (line file : jsstring) :
  match_b line = Some file -> exists pre, line = pre ++ file.
Proof.
  induction line as [|c rest IH]; cbn [match_b]; [discriminate|].
  destruct rest as [|d tail].
  - cbn [match_b]. discriminate.
  - destruct ((c =? 98) && (d =? 47) && truthy tail && dot_star tail).
    + cbn [skipn]. intros E. inversion E. exists [c; d]. reflexivity.
    + intros E. destruct (IH E) as [pre ->]. exists (c :: pre). reflexivity.
Qed.

Lemma Forall_diff_piece_app (lines : list jsstring) (a b : list Piece) :
  Forall (diff_piece lines) a -> Forall (diff_piece lines) b ->
  Forall (diff_piece lines) (a ++ b).
Proof. intros Ha Hb. apply Forall_app. split; assumption. Qed.

Lemma text_of_line (lines : list jsstring) (line pre s : jsstring) :
  In line lines -> line = pre ++ s -> diff_piece lines (Text (escapeHtml s)).
Proof.
  intros Hin E. exists s. split; [reflexivity|]. right. right.
  exists line, pre. split; assumption.
Qed.

Lemma text_line_feed (lines : list jsstring) : diff_piece lines (Text [10]).
Proof. exists [10]. split; [reflexivity|]. right. left. reflexivity. Qed.

Ltac each_piece := repeat first [apply Forall_nil | apply Forall_cons].

Lemma span_pieces (lines : list jsstring) (cls : string) (line : jsstring) :
  In line lines ->
  In ("span"%string, cls) diff_tags ->
  exists pieces,
    span cls (escapeHtml line) = flat_map piece_html pieces /\
    (forall stack, nesting stack pieces = Some stack) /\
    Forall (diff_piece lines) pieces.
Proof.
  intros Hin Hc.
  exists [Open "span" cls; Text (escapeHtml line); Close "span"; Text [10]].
  split; [|split].
  - unfold span. cbn [flat_map piece_html]. rewrite ?app_nil_r, <- ?app_assoc.
    reflexivity.
  - intros stack. reflexivity.
  - each_piece.
    + exact Hc.
    + apply (text_of_line lines line []); [exact Hin | reflexivity].
    + cbn. auto 10.
    + apply text_line_feed.
Qed.

(** What the loop has written is well nested, with the content of a file
    open while [inFile] holds. *)
Lemma diff_line_pieces (lines : list jsstring) (st : Diff) (line : jsstring) :
  In line lines ->
  (exists pieces,
      html st = flat_map piece_html pieces /\
      nesting [] pieces =
        Some (if inFile st then ["pre"; "div"]%string else []) /\
      Forall (diff_piece lines) pieces) ->
  exists pieces,
    html (diff_line st line) = flat_map piece_html pieces /\
    nesting [] pieces =
      Some (if inFile (diff_line st line) then ["pre"; "div"]%string else []) /\
    Forall (diff_piece lines) pieces.
Proof.
  intros Hin [pieces [Hh [Hn Hp]]].
  assert (Hspan : forall cls,
             In ("span"%string, cls) diff_tags ->
             exists pieces',
               html (add_html st (span cls (escapeHtml line))) =
                 flat_map piece_html pieces' /\
               nesting [] pieces' =
                 Some (if inFile st then ["pre"; "div"]%string else []) /\
               Forall (diff_piece lines) pieces').
  { intros cls Hc. destruct (span_pieces lines cls line Hin Hc) as [sp [E [Hs Hf]]].
    exists (pieces ++ sp). cbn [add_html html]. split; [|split].
    - rewrite flat_map_app, <- Hh, <- E. reflexivity.
    - rewrite nesting_app, Hn. apply Hs.
    - apply Forall_diff_piece_app; assumption. }
  unfold diff_line.
  destruct (startsWith line (js "diff --git")).
  { set (file := match match_b line with Some f => f | None => [] end).
    assert (Hfile : exists pre, line = pre ++ file).
    { subst file. destruct (match_b line) as [f|] eqn:E.
      - apply match_b_suffix. exact E.
      - exists line. rewrite app_nil_r. reflexivity. }
    destruct Hfile as [pre Hfile].
    exists ((pieces ++ if inFile st then [Close "pre"; Close "div"] else []) ++
            [Open "div" "diff-file"; Open "div" "diff-file-header";
             Text (escapeHtml file); Close "div"; Open "pre" "diff-content"]).
    cbn [html inFile]. split; [|split].
    - rewrite !flat_map_app, <- Hh.
      replace (html st ++
               flat_map piece_html
                 (if inFile st then [Close "pre"; Close "div"] else []))
        with (html (if inFile st then add_html st file_end else st)).
      + f_equal.
      + destruct (inFile st); cbn [add_html html flat_map piece_html].
        * unfold file_end. rewrite app_nil_r. reflexivity.
        * rewrite app_nil_r. reflexivity.
    - rewrite !nesting_app, Hn. destruct (inFile st); reflexivity.
    - apply Forall_diff_piece_app; [apply Forall_diff_piece_app; [exact Hp|]|].
      + destruct (inFile st); each_piece; cbn; auto 10.
      + each_piece; try (cbn; auto 10; fail).
        apply (text_of_line lines line pre); assumption. }
  destruct (startsWith line (js "@@")); [apply Hspan; cbn; auto 10|].
  destruct (startsWith line (js "+") && _); [apply Hspan; cbn; auto 10|].
  destruct (startsWith line (js "-") && _); [apply Hspan; cbn; auto 10|].
  destruct (startsWith line (js "index ") || _ || _); [apply Hspan; cbn; auto 10|].
  destruct (inFile st) eqn:Hf.
  - exists (pieces ++ [Text (escapeHtml line); Text [10]]).
    cbn [add_html html inFile]. rewrite Hf. split; [|split].
    + rewrite flat_map_app, <- Hh. cbn [flat_map piece_html].
      rewrite app_nil_r. reflexivity.
    + rewrite nesting_app, Hn. reflexivity.
    + apply Forall_diff_piece_app; [exact Hp|].
      each_piece; [|apply text_line_feed].
      apply (text_of_line lines line []); [exact Hin | reflexivity].
  - exists pieces. rewrite Hf. auto.
Qed.

Lemma diff_lines_pieces (lines some : list jsstring) (st : Diff) :
  incl some lines ->
  (exists pieces,
      html st = flat_map piece_html pieces /\
      nesting [] pieces =
        Some (if inFile st then ["pre"; "div"]%string else []) /\
      Forall (diff_piece lines) pieces) ->
  exists pieces,
    html (fold_left diff_line some st) = flat_map piece_html pieces /\
    nesting [] pieces =
      Some (if inFile (fold_left diff_line some st)
            then ["pre"; "div"]%string else []) /\
    Forall (diff_piece lines) pieces.
Proof.
  revert st. induction some as [|line some IH]; intros st Hincl Hst; [exact Hst|].
  cbn [fold_left]. apply IH.
  - intros l Hl. apply Hincl. right. exact Hl.
  - apply diff_line_pieces; [apply Hincl; left; reflexivity | exact Hst].
Qed.

Lemma formatDiff_pieces (diff : jsstring) :
  exists pieces,
    formatDiff diff = flat_map piece_html pieces /\
    nesting [] pieces = Some [] /\
    Forall (diff_piece (split_on 10 diff)) pieces.
Proof.
  assert (Hempty : exists pieces,
             no_changes = flat_map piece_html pieces /\
             nesting [] pieces = Some [] /\
             Forall (diff_piece (split_on 10 diff)) pieces).
  { exists [Open "p" "empty"; Text (js "No changes"); Close "p"].
    split; [reflexivity|]. split; [reflexivity|].
    each_piece; try (cbn; auto 10; fail).
    exists (js "No changes"). split; [reflexivity | left; reflexivity]. }
  unfold formatDiff. destruct (negb (truthy diff)); [exact Hempty|].
  destruct (diff_lines_pieces (split_on 10 diff) (split_on 10 diff) diff_start)
    as [pieces [Hh [Hn Hp]]].
  - apply incl_refl.
  - exists []. repeat split. constructor.
  - set (st := fold_left diff_line (split_on 10 diff) diff_start) in *.
    destruct (inFile st).
    + cbn [add_html html].
      destruct (truthy (html st ++ file_end)); [|exact Hempty].
      exists (pieces ++ [Close "pre"; Close "div"]). split; [|split].
      * rewrite flat_map_app, <- Hh. reflexivity.
      * rewrite nesting_app, Hn. reflexivity.
      * apply Forall_diff_piece_app; [exact Hp|].
        each_piece; cbn; auto 10.
    + destruct (truthy (html st)); [|exact Hempty].
      exists pieces. auto.
Qed.

(** X28: the page [formatDiff] writes is well-nested markup: it is a sequence
    of tags, all from a fixed list, and of text, in which every closing tag
    closes the innermost open element and nothing is left open; and each
    piece of text went through [escapeHtml], being a line of the diff, the
    end of one (the file name of a header), a line feed or the words of
    the empty case. *)
Theorem formatDiff_markup (diff : jsstring) :
  exists pieces,
    formatDiff diff = flat_map piece_html pieces /\
    nesting [] pieces = Some [] /\
    Forall (diff_piece (split_on 10 diff)) pieces.
Proof. apply formatDiff_pieces. Qed.

Lemma escapeHtml_no_lt (text : jsstring) : ~ In 60 (escapeHtml text).
Proof.
  rewrite escapeHtml_flat_map. induction text as [|c text IH]; [intros []|].
  cbn [flat_map]. intros Hin. apply in_app_or in Hin.
  destruct Hin as [Hin|Hin]; [|exact (IH Hin)].
  destruct (entity_cases c) as [[_ E]|[[_ E]|[[_ E]|[[_ E]|[[_ E]|[Hs E]]]]]];
    rewrite E in Hin.
  1-5: cbn in Hin; intuition discriminate.
  destruct Hin as [-> | []]. vm_compute in Hs. discriminate Hs.
Qed.

Lemma tag_lt (tag a b : jsstring) :
  In tag diff_markup -> tag = a ++ 60 :: b -> a = [].
Proof.
  intros Hin E.
  assert (Hall : forallb (fun t => negb (existsb (N.eqb 60) (tl t))) diff_markup = true)
    by (vm_compute; reflexivity).
  rewrite forallb_forall in Hall. specialize (Hall tag Hin).
  destruct a as [|x a]; [reflexivity|]. exfalso.
  rewrite E in Hall. cbn [app tl] in Hall.
  rewrite existsb_app in Hall. cbn [existsb] in Hall.
  rewrite N.eqb_refl, orb_true_r in Hall. discriminate Hall.
Qed.

Lemma piece_tag (lines : list jsstring) (p : Piece) :
  diff_piece lines p ->
  In (piece_html p) diff_markup \/ exists s, piece_html p = escapeHtml s.
Proof.
  destruct p as [name cls|name|text]; cbn [diff_piece piece_html].
  - intros Hin. left. unfold diff_markup. apply in_or_app. left.
    apply (in_map (fun t => open_tag (fst t) (snd t)) _ _ Hin).
  - intros Hin. left. unfold diff_markup. apply in_or_app. right.
    apply in_map. exact Hin.
  - intros [s [E _]]. right. exists s. exact E.
Qed.

Lemma pieces_lt (lines : list jsstring) (pieces : list Piece) :
  Forall (diff_piece lines) pieces ->
  forall pre post,
    flat_map piece_html pieces = pre ++ 60 :: post ->
    exists tag, In tag diff_markup /\ startsWith (60 :: post) tag = true.
Proof.
  induction 1 as [|p pieces Hp _ IH]; intros pre post E.
  - destruct pre; discriminate E.
  - cbn [flat_map] in E. apply app_eq_app in E.
    destruct E as [l [[E1 E2] | [E1 E2]]].
    + destruct l as [|x l]; cbn [app] in E2.
      * apply (IH [] post). symmetry. exact E2.
      * inversion E2; subst x post.
        destruct (piece_tag lines p Hp) as [Hin | [s Es]].
        -- pose proof (tag_lt _ _ _ Hin E1) as ->. cbn [app] in E1.
           exists (piece_html p). split; [exact Hin|].
           apply startsWith_spec. exists (flat_map piece_html pieces).
           rewrite E1. reflexivity.
        -- exfalso. apply (escapeHtml_no_lt s). rewrite <- Es, E1.
           apply in_elt.
    + apply (IH l post). exact E2.
Qed.

(** X29: no [<] of the diff reaches the page: wherever the result of
    [formatDiff] has a [<], one of the tags the function writes starts
    there. *)
Theorem formatDiff_escapes (diff pre post : jsstring) :
  formatDiff diff = pre ++ 60 :: post ->
  exists tag, In tag diff_markup /\ startsWith (60 :: post) tag = true.
Proof.
  destruct (formatDiff_pieces diff) as [pieces [-> [_ Hp]]].
  apply (pieces_lt _ _ Hp).
Qed.

Lemma formatDiff_escapes_witness :
  exists tag,
    In tag diff_markup /\
    startsWith (js "<span class=" ++ [34] ++ js "diff-add" ++ [34] ++
                js ">+a&lt;b</span>" ++ [10]) tag = true.
Proof.
  apply (formatDiff_escapes (js "+a<b") []). vm_compute. reflexivity.
Defined.

Lemma split_on_single (line : jsstring) :
  ~ In 10 line -> split_on 10 line = [line].
Proof.
  intros Hn. destruct (split_on_head 10 line) as [p [ps [E Hps]]].
  destruct (split_on_join 10 line) as [Hj _].
  apply Hps in Hn. subst ps. rewrite E in *. cbn [join] in Hj.
  rewrite Hj. reflexivity.
Qed.

Lemma match_b_first (pre file : jsstring) :
  includes pre (js "b/") = false -> file <> [] -> dot_star file = true ->
  match_b (pre ++ js "b/" ++ file) = Some file.
Proof.
  intros Hi Hf Hd. induction pre as [|c pre IH].
  - cbn [app js map list_ascii_of_string match_b].
    destruct file as [|x file]; [contradiction|].
    change (N_of_ascii "b" =? 98) with true.
    change (N_of_ascii "/" =? 47) with true.
    cbn [andb truthy]. rewrite Hd. reflexivity.
  - cbn [includes] in Hi. apply orb_false_iff in Hi. destruct Hi as [Hs Hi].
    specialize (IH Hi). cbn [app match_b].
    destruct pre as [|d pre].
    + cbn [app] in *. change (js "b/" ++ file) with (98 :: 47 :: file) in *.
      cbv iota. change (98 =? 47) with false. rewrite andb_false_r.
      cbn [andb]. exact IH.
    + cbn [app] in *.
      change (js "b/") with [98; 47] in Hs. cbn [startsWith] in Hs.
      rewrite andb_true_r in Hs. cbv iota. rewrite Hs. cbn [andb]. exact IH.
Qed.

Lemma match_b_terminated (body : jsstring) (c : N) :
  line_terminator c = true -> match_b (body ++ [c]) = None.
Proof.
  intros Hc. induction body as [|x body IH]; [reflexivity|].
  cbn [app match_b]. rewrite IH.
  destruct body as [|d body]; cbn [app].
  { cbn [truthy dot_star forallb]. rewrite andb_true_r, andb_false_r. reflexivity. }
  replace (dot_star (body ++ [c])) with false; [rewrite andb_false_r; reflexivity|].
  unfold dot_star. rewrite forallb_app. cbn [forallb]. rewrite Hc.
  cbn [negb andb]. rewrite andb_false_r. reflexivity.
Qed.

Lemma match_b_none (line : jsstring) :
  includes line (js "b/") = false -> match_b line = None.
Proof.
  induction line as [|c line IH]; [reflexivity|].
  cbn [includes]. intros Hi. apply orb_false_iff in Hi. destruct Hi as [Hs Hi].
  cbn [match_b]. rewrite (IH Hi).
  destruct line as [|d line]; [reflexivity|].
  change (js "b/") with [98; 47] in Hs. cbn [startsWith] in Hs.
  rewrite andb_true_r in Hs. rewrite Hs. reflexivity.
Qed.

Lemma header_alone (line : jsstring) :
  startsWith line (js "diff --git") = true -> ~ In 10 line ->
  formatDiff line =
    file_header (match match_b line with Some f => f | None => [] end) ++ file_end.
Proof.
  intros Hs Hn. unfold formatDiff.
  destruct line as [|c line]; [discriminate Hs|]. cbn [truthy negb].
  rewrite (split_on_single _ Hn). cbn [fold_left]. unfold diff_line.
  rewrite Hs. reflexivity.
Qed.

(** X30: the file name in the header of a file is what follows the first
    [b/] of the [diff --git] line, not the last one, so that a path with a
    directory whose name ends in [b] is shown cut and followed by its second
    copy; it is empty when the line has no [b/] and when the line ends with
    a carriage return or another line terminator. *)
Theorem diff_header_file (line : jsstring) :
  startsWith line (js "diff --git") = true -> ~ In 10 line ->
  (forall pre file,
      line = pre ++ js "b/" ++ file ->
      includes pre (js "b/") = false -> file <> [] -> dot_star file = true ->
      formatDiff line = file_header file ++ file_end) /\
  (forall body c,
      line = body ++ [c] -> line_terminator c = true ->
      formatDiff line = file_header [] ++ file_end) /\
  (includes line (js "b/") = false ->
   formatDiff line = file_header [] ++ file_end).
Proof.
  intros Hs Hn. rewrite (header_alone line Hs Hn). split; [|split].
  - intros pre file -> Hi Hf Hd. rewrite (match_b_first pre file Hi Hf Hd).
    reflexivity.
  - intros body c -> Hc. rewrite (match_b_terminated body c Hc). reflexivity.
  - intros Hi. rewrite (match_b_none line Hi). reflexivity.
Qed.

Lemma diff_header_file_witness :
  formatDiff (js "diff --git a/lib/x b/lib/x") =
    file_header (js "x b/lib/x") ++ file_end.
Proof.
  apply (diff_header_file (js "diff --git a/lib/x b/lib/x"))
    with (pre := js "diff --git a/li").
  - vm_compute. reflexivity.
  - vm_compute. intuition discriminate.
  - reflexivity.
  - vm_compute. reflexivity.
  - discriminate.
  - vm_compute. reflexivity.
Defined.
